(** * facial-detection-app: the FDDB ingestion script and its DynamoDB client

    A shallow embedding of [src/data_to_dynamodb.py] and [src/dynamo.py].
    Python values are modelled as follows:
    - [str] as [string], [int] as [Z], lists as [list];
    - a [dict] with string keys as [gmap string _];
    - a raised exception as the [Raise] branch of [result];
    - the state of the key-value store and of the [DynamoDBTable] object is
      threaded explicitly through every call. *)

From Stdlib Require Import ZArith Lia Ascii String List.
From stdpp Require Import base option list strings gmap fin_maps.

Local Open Scope Z_scope.

(** ** Python exceptions and results *)

Inductive exn : Type :=
  | IndexError
  | ValueError
  | KeyError (key : string)
  | AssertionError
  | AttributeError
  | ClientError (code message : string)
  | NameError (name : string).

Inductive result (A : Type) : Type :=
  | Ok (a : A)
  | Raise (e : exn).
Arguments Ok {A} a.
Arguments Raise {A} e.

Definition result_bind {A B} (f : A → result B) (r : result A) : result B :=
  match r with
  | Ok a => f a
  | Raise e => Raise e
  end.

#[global] Instance result_mbind : MBind result := @result_bind.
#[global] Instance result_mret : MRet result := @Ok.

(** ** Python built-ins used by the script *)

(** [s.find(sub)]: lowest index at which [sub] occurs in [s], [-1] if none. *)
Fixpoint find_at (sub s : string) (i : Z) : Z :=
  if String.prefix sub s then i
  else match s with
       | EmptyString => -1
       | String _ s' => find_at sub s' (i + 1)
       end.

Definition find (s sub : string) : Z := find_at sub s 0.

(** [x[i]] on a list, for a non-negative index. *)
Definition getitem {A} (x : list A) (i : nat) : result A :=
  match x !! i with
  | Some a => Ok a
  | None => Raise IndexError
  end.

(** Python strings are modelled on ASCII text: a [string] stands for the
    [str] with the same characters, all of them below 128.  The statements
    that depend on [int] or on [strip] say so with [is_ascii]. *)
Definition is_ascii (s : string) : Prop :=
  Forall (λ c, (nat_of_ascii c < 128)%nat) (list_ascii_of_string s).

#[global] Instance is_ascii_dec (s : string) : Decision (is_ascii s).
Proof. unfold is_ascii. apply _. Defined.

(** Whitespace, on ASCII text.  [str.strip()] removes the characters for
    which [str.isspace] holds: tab to carriage return, the four separators
    28 to 31, and space.  [int] skips fewer: tab to carriage return, and
    space. *)
Definition is_space (c : ascii) : bool :=
  let n := nat_of_ascii c in
  ((9 <=? n)%nat && (n <=? 13)%nat) || ((28 <=? n)%nat && (n <=? 32)%nat).

Definition int_space (c : ascii) : bool :=
  let n := nat_of_ascii c in
  ((9 <=? n)%nat && (n <=? 13)%nat) || (n =? 32)%nat.

Definition digit_of (c : ascii) : option Z :=
  let n := nat_of_ascii c in
  if ((48 <=? n)%nat && (n <=? 57)%nat) then Some (Z.of_nat n - 48) else None.

Fixpoint lstrip (space : ascii → bool) (l : list ascii) : list ascii :=
  match l with
  | c :: l' => if space c then lstrip space l' else l
  | [] => []
  end.

Definition strip (space : ascii → bool) (l : list ascii) : list ascii :=
  rev (lstrip space (rev (lstrip space l))).

(** [int(s)] in base 10 on ASCII text: whitespace is skipped at both ends,
    one sign is allowed, digits may be separated by single underscores,
    and a text of more than 4300 digits is refused (the default limit of
    the interpreter on the conversion; neither the sign nor the
    underscores count). *)
Fixpoint digits_value (acc : Z) (after_digit : bool) (l : list ascii) : option Z :=
  match l with
  | [] => if after_digit then Some acc else None
  | c :: l' =>
      match digit_of c with
      | Some d => digits_value (10 * acc + d) true l'
      | None =>
          if (Ascii.eqb c "_" && after_digit)%bool
          then digits_value acc false l'
          else None
      end
  end.

Definition int_max_str_digits : nat := 4300.

Fixpoint count_digits (l : list ascii) : nat :=
  match l with
  | [] => 0
  | c :: l' =>
      match digit_of c with
      | Some _ => S (count_digits l')
      | None => count_digits l'
      end
  end.

Definition parse_digits (l : list ascii) : option Z :=
  match digits_value 0 false l with
  | Some n =>
      if (int_max_str_digits <? count_digits l)%nat then None else Some n
  | None => None
  end.

Definition parse_int (s : string) : option Z :=
  match strip int_space (list_ascii_of_string s) with
  | c :: l =>
      if Ascii.eqb c "-" then Z.opp <$> parse_digits l
      else if Ascii.eqb c "+" then parse_digits l
      else parse_digits (c :: l)
  | [] => None
  end.

Definition int (s : string) : result Z :=
  match parse_int s with
  | Some n => Ok n
  | None => Raise ValueError
  end.

(** ** data_to_dynamodb.py *)

(** Values stored in the dictionaries the script builds. *)
Inductive value : Type :=
  | VInt (n : Z)
  | VStr (s : string)
  | VList (l : list string).

#[global] Instance value_eq_dec : EqDecision value.
Proof. solve_decision. Defined.

(** One accumulation step of the [for item in input_list] loop; the state is
    the pair [(result, sublist)]. *)
Definition split_step (split_element : string)
    (st : list (list string) * list string) (item : string)
    : list (list string) * list string :=
  let '(result, sublist) := st in
  if 0 <? find item split_element then
    match sublist with
    | _ :: _ => (result ++ [sublist], [item])
    | [] => (result, sublist ++ [item])
    end
  else (result, sublist ++ [item]).

Definition split_list_on_element (input_list : list string)
    (split_element : string) : list (list string) :=
  let '(result, sublist) :=
    fold_left (split_step split_element) input_list ([], []) in
  match sublist with
  | _ :: _ => result ++ [sublist]
  | [] => result
  end.

(** [map_list_to_json]: the dictionary literal evaluates [x[0]], then
    [int(x[1])], then the slice [x[2:]]; [os.path.join] of one argument
    returns it unchanged. *)
Definition map_list_to_json (x : list string) : result (gmap string value) :=
  name ← getitem x 0;
  count ← getitem x 1;
  n ← int count;
  Ok (<["image_name" := VStr name]>
      (<["num_faces" := VInt n]>
       (<["faces" := VList (drop 2 x)]>
        (<["train_set" := VInt 1]> ∅)))).

(** [modify_value]: [d['train_set'] = 0]. *)
Definition modify_value (d : gmap string value) : gmap string value :=
  <["train_set" := VInt 0]> d.

(** *** The train/test split of [__main__]

    The dictionaries built by [map_list_to_json] are mutable objects shared
    between [flat_json_list], [train] and [test].  They live in an object
    store (a [list] of dictionaries) and the Python lists hold references
    (positions in the store). *)

Abbreviation ref := nat.
Abbreviation heap := (list (gmap string value)).

(** [sklearn.model_selection.train_test_split(arrays, test_size=0.2)]
    (external library, no [random_state] passed).  It computes
    [n_test = ceil(0.2 * n_samples)] and [n_train = n_samples - n_test],
    raises [ValueError] when the train set would be empty, draws
    [permutation = rng.permutation(n_samples)] from the process-wide
    generator, and returns the elements at [permutation[n_test : n_test +
    n_train]] and at [permutation[:n_test]].  The drawn permutation is an
    explicit argument here.  For list lengths below [2^50] the double
    product [0.2 * n] has the same ceiling as the rational [n / 5]. *)
Definition n_test_of (n_samples : nat) : nat := ((n_samples + 4) / 5)%nat.

Definition train_test_split {A} (permutation : list nat) (arrays : list A)
    : result (list A * list A) :=
  let n_samples := length arrays in
  let n_test := n_test_of n_samples in
  let n_train := (n_samples - n_test)%nat in
  if (n_train =? 0)%nat then Raise ValueError
  else
    let ind_test := take n_test permutation in
    let ind_train := take n_train (drop n_test permutation) in
    train ← mapM (getitem arrays) ind_train;
    test ← mapM (getitem arrays) ind_test;
    Ok (train, test).

(** [list(map(modify_value, test))]: every referenced dictionary is updated
    in place and the list of references is returned unchanged. *)
Definition modify_all (test : list ref) (h : heap) : heap :=
  foldl (λ h r, alter modify_value r h) h test.

(** [d[k]] on a dictionary. *)
Definition getkey (d : gmap string value) (k : string) : result value :=
  match d !! k with
  | Some v => Ok v
  | None => Raise (KeyError k)
  end.

Definition deref (h : heap) (r : ref) : result (gmap string value) :=
  getitem h r.

(** [names.count(x)]. *)
Definition count (names : list value) (x : value) : nat :=
  length (filter (λ y, y = x) names).

(** Lines 116-125 of [__main__]: split, tag the test part, append it to the
    train part and assert that no image name occurs twice.  Returns the
    object store after the in-place updates, the train references (as they
    are before [train.extend(test)]) and the test references; the array [x]
    holds the train references followed by the test references. *)
Definition split_and_tag (permutation : list nat) (flat_json_list : list ref)
    (h : heap) : result (heap * (list ref * list ref)) :=
  '(train, test) ← train_test_split permutation flat_json_list;
  let h := modify_all test h in
  let x := train ++ test in
  names ← mapM (λ r, d ← deref h r; getkey d "image_name") x;
  let duplicates := filter (λ n, (1 <? count names n)%nat = true) names in
  if (length duplicates =? 0)%nat then Ok (h, (train, test))
  else Raise AssertionError.

(** The script applies the split to the freshly built dictionaries: object
    [i] of the store is the [i]-th element of [flat_json_list]. *)
Definition split_records (permutation : list nat) (records : heap)
    : result (heap * (list ref * list ref)) :=
  split_and_tag permutation (seq 0 (length records)) records.

(** ** dynamo.py *)

(** Items and keys are dictionaries from attribute names to values. *)
Abbreviation item := (gmap string value).

(** *** [do_batch_get] *)

(** The response of [batch_get_item]: [Responses] may be missing (the code
    reads it with [.get]); [UnprocessedKeys] maps a table name to the keys
    of its ["Keys"] entry. *)
Record batch_get_response : Type := {
  Responses : option (list (string * list item));
  UnprocessedKeys : gmap string (list item);
}.

(** What the function does to the outside world. *)
Inductive event : Type :=
  | BatchGetItem (RequestItems : gmap string (list item))
  | Sleep (seconds : Z).

Definition max_tries : Z := 5.

(** [for key in response.get("Responses", []): retrieved[key] += ...]. *)
Fixpoint collect (responses : list (string * list item))
    (retrieved : gmap string (list item)) : result (gmap string (list item)) :=
  match responses with
  | [] => Ok retrieved
  | (key, items) :: rest =>
      match retrieved !! key with
      | Some got => collect rest (<[key := got ++ items]> retrieved)
      | None => Raise (KeyError key)
      end
  end.

Section BatchGet.
(** The module never binds the global [dynamodb] that [do_batch_get]
    calls; it is a parameter here: a store with a state of type [St].  The
    trace records the calls and the sleeps; the two [logger.info] lines are
    left out. *)
Context {St : Type}.
Variable batch_get_item :
  gmap string (list item) → St → result batch_get_response * St.

(** The [while tries < max_tries] loop.  Every iteration that does not
    leave the loop increments [tries]; [fuel] bounds the iterations. *)
Fixpoint do_batch_get_loop (fuel : nat) (tries sleepy_time : Z)
    (batch_keys : gmap string (list item))
    (retrieved : gmap string (list item)) (s : St) (trace : list event)
    : option (result (gmap string (list item)) * St * list event) :=
  match fuel with
  | O => None
  | S fuel =>
      if tries <? max_tries then
        let '(r, s) := batch_get_item batch_keys s in
        let trace := trace ++ [BatchGetItem batch_keys] in
        match r with
        | Raise e => Some (Raise e, s, trace)
        | Ok response =>
            match collect (default [] (Responses response)) retrieved with
            | Raise e => Some (Raise e, s, trace)
            | Ok retrieved =>
                let unprocessed := UnprocessedKeys response in
                if (0 <? size unprocessed)%nat then
                  let batch_keys := unprocessed in
                  let tries := tries + 1 in
                  if tries <? max_tries then
                    do_batch_get_loop fuel tries (Z.min (sleepy_time * 2) 32)
                      batch_keys retrieved s (trace ++ [Sleep sleepy_time])
                  else
                    do_batch_get_loop fuel tries sleepy_time
                      batch_keys retrieved s trace
                else Some (Ok retrieved, s, trace)
            end
        end
      else Some (Ok retrieved, s, trace)
  end.

Definition do_batch_get (batch_keys : gmap string (list item)) (s : St)
    : option (result (gmap string (list item)) * St * list event) :=
  do_batch_get_loop (S (Z.to_nat max_tries)) 0 1 batch_keys
    ((λ _, []) <$> batch_keys) s [].

(** The responses the store gives along the first [n] calls of one
    execution: each call after the first asks for the keys the previous
    response left unprocessed.  The list stops at a failing call. *)
Fixpoint responses_of (n : nat) (batch_keys : gmap string (list item))
    (s : St) : list batch_get_response :=
  match n with
  | O => []
  | S n =>
      match batch_get_item batch_keys s with
      | (Ok response, s) =>
          response :: responses_of n (UnprocessedKeys response) s
      | (Raise _, _) => []
      end
  end.

(** The requests of the same calls. *)
Fixpoint requests_of (n : nat) (batch_keys : gmap string (list item))
    (s : St) : list (gmap string (list item)) :=
  match n with
  | O => []
  | S n =>
      batch_keys ::
      match batch_get_item batch_keys s with
      | (Ok response, s) => requests_of n (UnprocessedKeys response) s
      | (Raise _, _) => []
      end
  end.
End BatchGet.

(** Items appended to the accumulator for the given responses, in order. *)
Fixpoint accumulate (rs : list batch_get_response)
    (retrieved : gmap string (list item)) : result (gmap string (list item)) :=
  match rs with
  | [] => Ok retrieved
  | r :: rs =>
      retrieved ← collect (default [] (Responses r)) retrieved;
      accumulate rs retrieved
  end.

(** The tables a response names. *)
Definition response_tables (r : batch_get_response) : list string :=
  (default [] (Responses r)).*1.

(** *** The store behind [dyn_resource] *)

Inductive attr_type : Type := AttrN | AttrS.
Inductive key_type : Type := HASH | RANGE.

#[global] Instance attr_type_eq_dec : EqDecision attr_type.
Proof. solve_decision. Defined.
#[global] Instance key_type_eq_dec : EqDecision key_type.
Proof. solve_decision. Defined.

Record create_table_args : Type := {
  TableName : string;
  KeySchema : list (string * key_type);
  AttributeDefinitions : list (string * attr_type);
  ProvisionedThroughput : Z * Z;
}.

(** The response of [get_item] has an ["Item"] entry only when the key is
    present in the table. *)
Record get_item_response : Type := { Item : option item }.

(** The calls [DynamoDBTable] makes on the Boto3 resource and on the table
    objects it hands out.  A table object is identified by the table name;
    [St] is the state of the store.  A call returns normally or raises, and
    leaves a new store state either way.  The batch writer keeps a buffer of
    pending items. *)
Class DynResource (St : Type) : Type := {
  table_load : string → St → result unit * St;
  resource_create_table : create_table_args → St → result string * St;
  table_wait_until_exists : string → St → result unit * St;
  table_delete : string → St → result unit * St;
  writer_put_item : string → list item → item → St → result (list item) * St;
  writer_exit : string → list item → St → result unit * St;
  table_get_item : string → item → St → result get_item_response * St;
}.

(** *** [DynamoDBTable] *)

(** The object: [self.table] is [None] or a table object. *)
Record DynamoDBTable : Type := { table : option string }.

(** The store together with the records the module-level logger received:
    a format string and its arguments. *)
Record world (St : Type) : Type := {
  store : St;
  log : list (string * list value);
}.
Arguments store {St} w.
Arguments log {St} w.

Definition set_store {St} (w : world St) (s : St) : world St :=
  {| store := s; log := log w |}.

Definition logger_error {St} (w : world St) (msg : string)
    (args : list value) : world St :=
  {| store := store w; log := log w ++ [(msg, args)] |}.

Definition __init__ : DynamoDBTable := {| table := None |}.

Definition table_schema_args (table_name : string) : create_table_args :=
  {| TableName := table_name;
     KeySchema := [("train_set", HASH); ("image_name", RANGE)];
     AttributeDefinitions := [("train_set", AttrN); ("image_name", AttrS)];
     ProvisionedThroughput := (10, 10) |}.

Section Client.
Context {St : Type} `{DynResource St}.

Definition exists_ (table_name : string) (self : DynamoDBTable)
    (w : world St) : result bool * DynamoDBTable * world St :=
  match table_load table_name (store w) with
  | (Ok _, s) => (Ok true, {| table := Some table_name |}, set_store w s)
  | (Raise (ClientError code message), s) =>
      if String.eqb code "ResourceNotFoundException"
      then (Ok false, self, set_store w s)
      else (Raise (ClientError code message), self,
            logger_error (set_store w s)
              "Couldn't check for existence of %s. Here's why: %s: %s"
              [VStr table_name; VStr code; VStr message])
  | (Raise e, s) => (Raise e, self, set_store w s)
  end.

Definition create_table (table_name : string) (self : DynamoDBTable)
    (w : world St) : result string * DynamoDBTable * world St :=
  match resource_create_table (table_schema_args table_name) (store w) with
  | (Ok t, s) =>
      let self := {| table := Some t |} in
      match table_wait_until_exists t s with
      | (Ok _, s) => (Ok t, self, set_store w s)
      | (Raise (ClientError code message), s) =>
          (Raise (ClientError code message), self,
           logger_error (set_store w s)
             "Couldn't create table %s. Here's why: %s: %s"
             [VStr table_name; VStr code; VStr message])
      | (Raise e, s) => (Raise e, self, set_store w s)
      end
  | (Raise (ClientError code message), s) =>
      (Raise (ClientError code message), self,
       logger_error (set_store w s)
         "Couldn't create table %s. Here's why: %s: %s"
         [VStr table_name; VStr code; VStr message])
  | (Raise e, s) => (Raise e, self, set_store w s)
  end.

Definition delete_table (self : DynamoDBTable) (w : world St)
    : result unit * DynamoDBTable * world St :=
  match table self with
  | None => (Raise AttributeError, self, w)
  | Some t =>
      match table_delete t (store w) with
      | (Ok _, s) => (Ok (), {| table := None |}, set_store w s)
      | (Raise (ClientError code message), s) =>
          (Raise (ClientError code message), self,
           logger_error (set_store w s)
             "Couldn't delete table. Here's why: %s: %s"
             [VStr code; VStr message])
      | (Raise e, s) => (Raise e, self, set_store w s)
      end
  end.

(** The [with] block: one [put_item] per entry, then the writer is left,
    which sends what is still buffered.  A [put_item] that raises leaves
    the block with its exception. *)
Fixpoint put_entries (t : string) (buffer : list item) (entries : list item)
    (s : St) : result unit * St :=
  match entries with
  | [] => writer_exit t buffer s
  | entry :: entries =>
      match writer_put_item t buffer entry s with
      | (Ok buffer, s) => put_entries t buffer entries s
      | (Raise e, s) => (Raise e, s)
      end
  end.

Definition write_batch (entries : list item) (self : DynamoDBTable)
    (w : world St) : result unit * DynamoDBTable * world St :=
  match table self with
  | None => (Raise AttributeError, self, w)
  | Some t =>
      match put_entries t [] entries (store w) with
      | (Ok _, s) => (Ok (), self, set_store w s)
      | (Raise (ClientError code message), s) =>
          (Raise (ClientError code message), self,
           logger_error (set_store w s)
             "Couldn't load data into table %s. Here's why: %s: %s"
             [VStr t; VStr code; VStr message])
      | (Raise e, s) => (Raise e, self, set_store w s)
      end
  end.

Definition get_entry (image_name is_train : value) (self : DynamoDBTable)
    (w : world St) : result item * DynamoDBTable * world St :=
  match table self with
  | None => (Raise AttributeError, self, w)
  | Some t =>
      let Key := <["image_name" := image_name]>
                 (<["is_train" := is_train]> ∅) in
      match table_get_item t Key (store w) with
      | (Ok response, s) =>
          match Item response with
          | Some it => (Ok it, self, set_store w s)
          | None => (Raise (KeyError "Item"), self, set_store w s)
          end
      | (Raise (ClientError code message), s) =>
          (Raise (ClientError code message), self,
           logger_error (set_store w s)
             "Couldn't get entry %s from table %s. Here's why: %s: %s"
             [image_name; VStr t; VStr code; VStr message])
      | (Raise e, s) => (Raise e, self, set_store w s)
      end
  end.
End Client.

(** *** An in-memory store

    A model of the service behind the resource, as far as the client uses
    it: tables with a declared key schema, items identified by the values of
    their key attributes, requests that do not fit the schema rejected with
    a [ValidationException]. *)

Record table_data : Type := {
  td_key_schema : list (string * key_type);
  td_attributes : list (string * attr_type);
  td_items : list item;
}.

Abbreviation mem_store := (gmap string table_data).

Definition has_type (ty : attr_type) (v : value) : bool :=
  match ty, v with
  | AttrN, VInt _ => true
  | AttrS, VStr _ => true
  | _, _ => false
  end.

(** The key attributes of a table with their declared types. *)
Definition key_attributes (td : table_data) : list (string * attr_type) :=
  let declared : gmap string attr_type := list_to_map (td_attributes td) in
  omap (λ '(name, _), (λ ty, (name, ty)) <$> declared !! name)
       (td_key_schema td).

(** A key fits the schema when it has exactly the key attributes, each with
    a value of the declared type. *)
Definition valid_key (td : table_data) (k : item) : bool :=
  (size k =? length (td_key_schema td))%nat
  && (length (key_attributes td) =? length (td_key_schema td))%nat
  && forallb (λ '(name, ty),
        match k !! name with
        | Some v => has_type ty v
        | None => false
        end) (key_attributes td).

(** The key of an item: its restriction to the key attributes. *)
Definition item_key (td : table_data) (it : item) : item :=
  filter (λ '(name, _), name ∈ (td_key_schema td).*1) it.

Definition valid_item (td : table_data) (it : item) : bool :=
  valid_key td (item_key td it).

Definition validation_error {A} (message : string) : result A :=
  Raise (ClientError "ValidationException" message).

Definition not_found_error {A} : result A :=
  Raise (ClientError "ResourceNotFoundException"
           "Requested resource not found").

Definition mem_load (name : string) (s : mem_store) : result unit * mem_store :=
  match s !! name with
  | Some _ => (Ok (), s)
  | None => (not_found_error, s)
  end.

Definition mem_create_table (args : create_table_args) (s : mem_store)
    : result string * mem_store :=
  match s !! TableName args with
  | Some _ =>
      (Raise (ClientError "ResourceInUseException" "Table already exists"), s)
  | None =>
      let td := {| td_key_schema := KeySchema args;
                   td_attributes := AttributeDefinitions args;
                   td_items := [] |} in
      if (length (key_attributes td) =? length (KeySchema args))%nat
      then (Ok (TableName args), <[TableName args := td]> s)
      else (validation_error
              "Some index key attributes are not defined in AttributeDefinitions",
            s)
  end.

Definition mem_wait_until_exists (name : string) (s : mem_store)
    : result unit * mem_store :=
  mem_load name s.

Definition mem_delete (name : string) (s : mem_store)
    : result unit * mem_store :=
  match s !! name with
  | Some _ => (Ok (), delete name s)
  | None => (not_found_error, s)
  end.

(** [put] of one item: it replaces the item with the same key, if any. *)
Definition put_one (td : table_data) (it : item) : table_data :=
  {| td_key_schema := td_key_schema td;
     td_attributes := td_attributes td;
     td_items :=
       filter (λ old, item_key td old ≠ item_key td it) (td_items td) ++ [it] |}.

(** One [batch_write_item] request: rejected as a whole when an item does
    not fit the schema or two items of the request have the same key. *)
Definition mem_batch_write (name : string) (items : list item) (s : mem_store)
    : result unit * mem_store :=
  match s !! name with
  | None => (not_found_error, s)
  | Some td =>
      if negb (forallb (valid_item td) items) then
        (validation_error
           "The provided key element does not match the schema", s)
      else if bool_decide (NoDup (item_key td <$> items)) then
        (Ok (), <[name := foldl put_one td items]> s)
      else
        (validation_error "Provided list of item keys contains duplicates", s)
  end.

(** The batch writer sends a request of 25 items as soon as that many are
    buffered, and the rest when the block is left. *)
Definition flush_amount : nat := 25.

Definition mem_writer_put_item (name : string) (buffer : list item)
    (it : item) (s : mem_store) : result (list item) * mem_store :=
  let buffer := buffer ++ [it] in
  if (flush_amount <=? length buffer)%nat then
    match mem_batch_write name (take flush_amount buffer) s with
    | (Ok _, s) => (Ok (drop flush_amount buffer), s)
    | (Raise e, s) => (Raise e, s)
    end
  else (Ok buffer, s).

Fixpoint mem_flush_all (fuel : nat) (name : string) (buffer : list item)
    (s : mem_store) : result unit * mem_store :=
  match fuel, buffer with
  | _, [] => (Ok (), s)
  | O, _ => (Ok (), s)
  | S fuel, _ =>
      match mem_batch_write name (take flush_amount buffer) s with
      | (Ok _, s) => mem_flush_all fuel name (drop flush_amount buffer) s
      | (Raise e, s) => (Raise e, s)
      end
  end.

Definition mem_writer_exit (name : string) (buffer : list item)
    (s : mem_store) : result unit * mem_store :=
  mem_flush_all (length buffer) name buffer s.

Definition mem_get_item (name : string) (k : item) (s : mem_store)
    : result get_item_response * mem_store :=
  match s !! name with
  | None => (not_found_error, s)
  | Some td =>
      if valid_key td k then
        (Ok {| Item := snd <$> list_find (λ it, item_key td it = k)
                                  (td_items td) |}, s)
      else
        (validation_error
           "The provided key element does not match the schema", s)
  end.

#[global] Instance mem_resource : DynResource mem_store := {|
  table_load := mem_load;
  resource_create_table := mem_create_table;
  table_wait_until_exists := mem_wait_until_exists;
  table_delete := mem_delete;
  writer_put_item := mem_writer_put_item;
  writer_exit := mem_writer_exit;
  table_get_item := mem_get_item;
|}.

(** [get_item] with the key the table declares: the lookup [get_entry]
    would need for the tables made by [create_table]. *)
Definition schema_key (image_name train_set : value) : item :=
  <["image_name" := image_name]> (<["train_set" := train_set]> ∅).

(** *** [add_entry] and [query_table]

    The two remaining methods use two more calls of a table object:
    [put_item] and [query] with a key condition [Key(name).eq(v)]; the
    latter answers with the list under ["Items"]. *)
Class DynItems (St : Type) : Type := {
  table_put_item : string → item → St → result unit * St;
  table_query : string → string → value → St → result (list item) * St;
}.

Section ClientItems.
Context {St : Type} `{DynItems St}.

(** [self.table.put_item] is looked up before the [Item] dictionary is
    built, so an unbound client raises [AttributeError] before a missing
    entry of [json_file] raises [KeyError]. *)
Definition add_entry (json_file : gmap string value) (self : DynamoDBTable)
    (w : world St) : result unit * DynamoDBTable * world St :=
  match table self with
  | None => (Raise AttributeError, self, w)
  | Some t =>
      match
        image_name ← getkey json_file "image_name";
        num_faces ← getkey json_file "num_faces";
        faces ← getkey json_file "faces";
        train_set ← getkey json_file "train_set";
        Ok (image_name,
            <["image_name" := image_name]>
              (<["num_faces" := num_faces]>
                (<["faces" := faces]>
                  (<["train_set" := train_set]> (∅ : gmap string value)))))
      with
      | Raise e => (Raise e, self, w)
      | Ok (image_name, Item_) =>
          match table_put_item t Item_ (store w) with
          | (Ok _, s) => (Ok (), self, set_store w s)
          | (Raise (ClientError code message), s) =>
              (Raise (ClientError code message), self,
               logger_error (set_store w s)
                 "Couldn't add entry %s to table %s. Here's why: %s: %s"
                 [image_name; VStr t; VStr code; VStr message])
          | (Raise e, s) => (Raise e, self, set_store w s)
          end
      end
  end.

Definition query_table (query_by : string) (query : value)
    (self : DynamoDBTable) (w : world St)
    : result (list item) * DynamoDBTable * world St :=
  match table self with
  | None => (Raise AttributeError, self, w)
  | Some t =>
      match table_query t query_by query (store w) with
      | (Ok items, s) => (Ok items, self, set_store w s)
      | (Raise (ClientError code message), s) =>
          (Raise (ClientError code message), self,
           logger_error (set_store w s)
             "Couldn't query for entries with name %s. Here's why: %s: %s"
             [query; VStr code; VStr message])
      | (Raise e, s) => (Raise e, self, set_store w s)
      end
  end.

(** The call without arguments: [query_by="is_train", query=1]. *)
Definition query_table_default (self : DynamoDBTable) (w : world St)
    : result (list item) * DynamoDBTable * world St :=
  query_table "is_train" (VInt 1) self w.
End ClientItems.

(** [put_item] and [query] of the in-memory store.  A query must name the
    partition key of the table and give a value of its declared type; it
    answers with the items whose partition attribute has that value.  The
    order of the answer and its division into pages are not modelled: the
    items come as the table holds them. *)
Definition mem_put_item (name : string) (it : item) (s : mem_store)
    : result unit * mem_store :=
  match s !! name with
  | None => (not_found_error, s)
  | Some td =>
      if valid_item td it then (Ok (), <[name := put_one td it]> s)
      else (validation_error
              "One or more parameter values were invalid: Missing the key",
            s)
  end.

Definition hash_attribute (td : table_data) : option (string * attr_type) :=
  snd <$> list_find (λ '(name, _),
                       (name, HASH) ∈ td_key_schema td) (key_attributes td).

Definition mem_query (name : string) (query_by : string) (query : value)
    (s : mem_store) : result (list item) * mem_store :=
  match s !! name with
  | None => (not_found_error, s)
  | Some td =>
      match hash_attribute td with
      | Some (hash, ty) =>
          if bool_decide (query_by = hash) && has_type ty query then
            (Ok (filter (λ it, it !! hash = Some query) (td_items td)), s)
          else
            (validation_error "Query condition missed key schema element", s)
      | None =>
          (validation_error "Query condition missed key schema element", s)
      end
  end.

#[global] Instance mem_items : DynItems mem_store := {|
  table_put_item := mem_put_item;
  table_query := mem_query;
|}.

(** *** [run_scenario] and the script

    [print] calls are left out. *)
Section Script.
Context {St : Type} `{DynResource St}.

Definition run_scenario (table_name : string) (w : world St)
    : result DynamoDBTable * world St :=
  let dt := __init__ in
  match exists_ table_name dt w with
  | (Ok table_exists, dt, w) =>
      if negb table_exists then
        match create_table table_name dt w with
        | (Ok _, dt, w) => (Ok dt, w)
        | (Raise e, _, w) => (Raise e, w)
        end
      else (Ok dt, w)
  | (Raise e, _, w) => (Raise e, w)
  end.

(** [x.strip()], on ASCII text. *)
Definition str_strip (x : string) : string :=
  string_of_list_ascii (strip is_space (list_ascii_of_string x)).

(** Lines 95-114: the lines of every file are stripped, split into groups
    and mapped to dictionaries; the dictionaries of all files are
    flattened into one list.  The first group that fails ends the run.
    Line 105, [len(sublists)], reads the variable of the loop before it:
    without any file the loop has not bound it. *)
Definition build_records (files : list (list string))
    : result (list (gmap string value)) :=
  let all_lines := (λ lines, str_strip <$> lines) <$> files in
  let all_sublists :=
    (λ lines, split_list_on_element lines "/") <$> all_lines in
  _ ← match all_sublists with
      | [] => Raise (NameError "sublists")
      | _ :: _ => Ok ()
      end;
  all_jsons ← mapM (mapM map_list_to_json) all_sublists;
  Ok (concat all_jsons).

Definition dt_name : string := "facial-detection-dataset".

(** Lines 101-138, on the lines read from the annotation files: build,
    split and tag, assert, make sure the table exists, upload.  The array
    [x] holds the dictionaries as they are after tagging. *)
Definition main (permutation : list nat) (files : list (list string))
    (w : world St) : result unit * world St :=
  match build_records files with
  | Raise e => (Raise e, w)
  | Ok flat_json_list =>
      match split_records permutation flat_json_list with
      | Raise e => (Raise e, w)
      | Ok (h, (train, test)) =>
          let x := omap (λ r, h !! r) (train ++ test) in
          match run_scenario dt_name w with
          | (Raise e, w) => (Raise e, w)
          | (Ok dt, w) =>
              let '(r, _, w) := write_batch x dt w in (r, w)
          end
      end
  end.
End Script.

(** ** Vocabulary of the statements *)

Definition nonempty {A} (g : list A) : Prop := g ≠ [].

(** The dictionary [map_list_to_json] builds, by its four entries. *)
Definition record_of (name : string) (n : Z) (faces : list string)
    (train_set : Z) : gmap string value :=
  <["image_name" := VStr name]>
    (<["num_faces" := VInt n]>
      (<["faces" := VList faces]> (<["train_set" := VInt train_set]> ∅))).

(** The sleeps and the requests of a trace. *)
Definition sleeps_of (trace : list event) : list Z :=
  omap (λ e, match e with Sleep d => Some d | _ => None end) trace.

Definition calls_of (trace : list event) : list (gmap string (list item)) :=
  omap (λ e, match e with BatchGetItem k => Some k | _ => None end) trace.

(** Calls separated by sleeps whose delay starts at [sleepy_time] and
    doubles up to 32. *)
Fixpoint backoff_trace (sleepy_time : Z)
    (requests : list (gmap string (list item))) : list event :=
  match requests with
  | [] => []
  | [k] => [BatchGetItem k]
  | k :: ks =>
      BatchGetItem k :: Sleep sleepy_time
        :: backoff_trace (Z.min (sleepy_time * 2) 32) ks
  end.

(** The items a response lists under table [t]. *)
Definition returned_for (t : string) (responses : list (string * list item))
    : list item :=
  mjoin (filter (λ p, p.1 = t) responses).*2.

Definition has_unprocessed (r : batch_get_response) : Prop :=
  (0 < size (UnprocessedKeys r))%nat.

Definition names_requested (batch_keys : gmap string (list item))
    (r : batch_get_response) : Prop :=
  ∀ t, t ∈ response_tables r → t ∈ dom batch_keys.

(** A store that never processes a key: every response hands the request
    back as unprocessed. *)
Definition stubborn_store (batch_keys : gmap string (list item)) (s : unit)
    : result batch_get_response * unit :=
  (Ok {| Responses := Some []; UnprocessedKeys := batch_keys |}, s).

(** A store that counts its calls and processes nothing before call number
    [good_at] (counted from 0), at which it reports nothing unprocessed. *)
Definition flaky_store (good_at : nat) (batch_keys : gmap string (list item))
    (calls : nat) : result batch_get_response * nat :=
  (Ok {| Responses := Some [];
         UnprocessedKeys := if (calls =? good_at)%nat then ∅ else batch_keys |},
   S calls).

Definition one_key_request : gmap string (list item) :=
  {[ "facial-detection-dataset" :=
       [<["image_name" := VStr "2002/08/11/big/img_591"]>
          (<["train_set" := VInt 1]> ∅)] ]}.

(** A dictionary as [map_list_to_json] returns it for some group. *)
Definition built (d : gmap string value) : Prop :=
  ∃ x, map_list_to_json x = Ok d.

Definition tagged (t : Z) (d : gmap string value) : Prop :=
  d !! "train_set" = Some (VInt t).

Definition image_names (ds : list (gmap string value)) : list (option value) :=
  (λ d, d !! "image_name") <$> ds.

(** The dictionaries a list of references points to. *)
Definition contents (h : heap) (rs : list ref) : list (gmap string value) :=
  omap (λ r, h !! r) rs.

(** A dictionary without its partition flag. *)
Definition untagged (d : gmap string value) : gmap string value :=
  delete "train_set" d.

(** The partition flag of object [r] once the split has run. *)
Definition tag_after (permutation : list nat) (records : heap) (r : ref)
    : option value :=
  match split_records permutation records with
  | Ok (h, _) => h !! r ≫= (λ d, d !! "train_set")
  | Raise _ => None
  end.

Definition five_records : heap :=
  (λ n, record_of n 1 [] 1) <$> ["2002/a"; "2002/b"; "2002/c"; "2002/d"; "2002/e"].

Definition two_records : heap :=
  (λ n, record_of n 1 [] 1) <$> ["2002/a"; "2002/b"].

(** Sample data: a fresh client, an empty store, one record. *)
Definition sample_entry : item :=
  record_of "2002/08/11/big/img_591" 1 ["123.5 85.5 1.26 269.6 161.7  1"] 1.

Definition empty_world : world mem_store := {| store := ∅; log := [] |}.

Definition sample_client : DynamoDBTable :=
  (create_table "facial-detection-dataset" __init__ empty_world).1.2.

Definition created_world : world mem_store :=
  (create_table "facial-detection-dataset" __init__ empty_world).2.

Definition written_world : world mem_store :=
  (write_batch [sample_entry; modify_value sample_entry]
     sample_client created_world).2.

(** The client and the world once a table has been created in the empty
    store and the entries have been written to it. *)
Definition client_after_write (table_name : string) (entries : list item)
    : DynamoDBTable * world mem_store :=
  let '(_, dt, w) := create_table table_name __init__ empty_world in
  let '(_, dt, w) := write_batch entries dt w in
  (dt, w).

(** A store holding an empty table whose partition key is named
    [is_train], and a client bound to that table. *)
Definition is_train_store : mem_store :=
  {[ "faces" := {| td_key_schema := [("is_train", HASH); ("image_name", RANGE)];
                   td_attributes := [("is_train", AttrN); ("image_name", AttrS)];
                   td_items := [] |} ]}.

Definition faces_client : DynamoDBTable := {| table := Some "faces" |}.

(** The key attributes a stored table declares. *)
Definition schema_of (s : mem_store) (name : string)
    : option (list (string * key_type) * list (string * attr_type)) :=
  (λ td, (td_key_schema td, td_attributes td)) <$> s !! name.

(** The item a table holds under a key. *)
Definition stored (td : table_data) (k : item) : option item :=
  snd <$> list_find (λ it, item_key td it = k) (td_items td).

(** An entry with the two key attributes of the tables [create_table]
    makes, and such a table. *)
Definition well_keyed (e : item) : Prop :=
  ∃ n t, e !! "image_name" = Some (VStr n) ∧ e !! "train_set" = Some (VInt t).

Definition created_table (items : list item) : table_data :=
  {| td_key_schema := [("train_set", HASH); ("image_name", RANGE)];
     td_attributes := [("train_set", AttrN); ("image_name", AttrS)];
     td_items := items |}.

(** A header line: one that starts a new group. *)
Definition is_header (split_element item : string) : Prop :=
  0 < find item split_element.

#[global] Instance is_header_dec split_element item :
  Decision (is_header split_element item).
Proof. unfold is_header. apply _. Defined.

(** A group as the annotation files have them: a header followed by lines
    that are no headers. *)
Definition headed_group (split_element : string) (g : list string) : Prop :=
  ∃ h t, g = h :: t ∧ is_header split_element h
         ∧ Forall (λ x, ¬ is_header split_element x) t.

(** What [split_list_on_element] returns for the loop state it ends in. *)
Definition close_groups (st : list (list string) * list string)
    : list (list string) :=
  match st.2 with
  | _ :: _ => st.1 ++ [st.2]
  | [] => st.1
  end.

(** One image of an annotation file: its path, its count line and its face
    lines. *)
Record annotation : Type := {
  ann_name : string;
  ann_count : string;
  ann_faces : list string;
}.

Definition ann_lines (a : annotation) : list string :=
  ann_name a :: ann_count a :: ann_faces a.

Definition well_formed (a : annotation) : Prop :=
  is_header "/" (ann_name a)
  ∧ ¬ is_header "/" (ann_count a)
  ∧ Forall (λ x, ¬ is_header "/" x) (ann_faces a)
  ∧ is_Some (parse_int (ann_count a)).

Definition ann_record (a : annotation) : gmap string value :=
  record_of (ann_name a) (default 0 (parse_int (ann_count a)))
    (ann_faces a) 1.

(** Two annotation files as read from disk, and their images. *)
Definition sample_files : list (list string) :=
  [["2002/08/11/big/img_591 "; "1 "; "123.5 85.5 1.26 269.6 161.7  1 "];
   [" 2002/08/26/big/img_265"; "02"; "67.3 44.5 -1.47 92.9 106.9  1";
    "41.9 27.9 1.32 144.5 88.1  1"; "2002/07/19/big/img_423"; "0"]].

Definition sample_images : list (list annotation) :=
  [[{| ann_name := "2002/08/11/big/img_591"; ann_count := "1";
       ann_faces := ["123.5 85.5 1.26 269.6 161.7  1"] |}];
   [{| ann_name := "2002/08/26/big/img_265"; ann_count := "02";
       ann_faces := ["67.3 44.5 -1.47 92.9 106.9  1";
                     "41.9 27.9 1.32 144.5 88.1  1"] |};
    {| ann_name := "2002/07/19/big/img_423"; ann_count := "0";
       ann_faces := [] |}]].

(** [n] delays starting at [d], each the double of the one before, capped
    at 32. *)
Fixpoint doubling (d : Z) (n : nat) : list Z :=
  match n with
  | O => []
  | S n => d :: doubling (Z.min (d * 2) 32) n
  end.

(** The outcome of call number [n] (counted from 0) of an execution whose
    earlier calls returned normally. *)
Fixpoint call_after {St : Type}
    (batch_get_item :
       gmap string (list item) → St → result batch_get_response * St)
    (n : nat) (batch_keys : gmap string (list item)) (s : St)
    : result batch_get_response * St :=
  match n with
  | O => batch_get_item batch_keys s
  | S n =>
      match batch_get_item batch_keys s with
      | (Ok response, s) =>
          call_after batch_get_item n (UnprocessedKeys response) s
      | (Raise e, s) => (Raise e, s)
      end
  end.

(** A store that fails at call number [bad_at] and processes nothing
    before. *)
Definition failing_store (bad_at : nat) (batch_keys : gmap string (list item))
    (calls : nat) : result batch_get_response * nat :=
  if (calls =? bad_at)%nat then
    (Raise (ClientError "ProvisionedThroughputExceededException"
              "The level of configured provisioned throughput was exceeded"),
     S calls)
  else
    (Ok {| Responses := Some []; UnprocessedKeys := batch_keys |}, S calls).

(** A store that counts its calls and returns one item of the requested
    table at each call; it reports the request as unprocessed except at
    call number [good_at] (counted from 0), at which it reports nothing
    unprocessed. *)
Definition serving_store (good_at : nat) (batch_keys : gmap string (list item))
    (calls : nat) : result batch_get_response * nat :=
  (Ok {| Responses := Some [("facial-detection-dataset", [sample_entry])];
         UnprocessedKeys := if (calls =? good_at)%nat then ∅ else batch_keys |},
   S calls).

(** A store that answers with an item of a table nobody asked for. *)
Definition confused_store (batch_keys : gmap string (list item)) (s : unit)
    : result batch_get_response * unit :=
  (Ok {| Responses := Some [("other-table", [sample_entry])];
         UnprocessedKeys := ∅ |}, s).

(** The partition flag the script gives the record at position [i] of
    [flat_json_list]: 0 when [i] is among the first [n_test] positions of
    the drawn permutation (the test part), 1 otherwise. *)
Definition uploaded_tag (permutation : list nat) (n : nat) (i : nat) : Z :=
  if decide (i ∈ take (n_test_of n) permutation) then 0 else 1.

(** * Properties *)

(** Equalities between closed terms, by evaluation. *)
Ltac vm_refl :=
  lazymatch goal with |- _ = ?r => vm_cast_no_check (@eq_refl _ r) end.

(** ** Sanity checks on concrete inputs *)

Example find_ex : find "2002/08/11/big/img_591" "/" = 4
  ∧ find "/abs" "/" = 0 ∧ find "1" "/" = -1 ∧ find "" "" = 0.
Proof. repeat split; reflexivity. Qed.

Example int_ex : int " +1_0 " = Ok 10 ∧ int "-07" = Ok (-7)
  ∧ int "2.0" = Raise ValueError ∧ int "" = Raise ValueError
  ∧ int "1__0" = Raise ValueError ∧ int "- 1" = Raise ValueError.
Proof. repeat split; reflexivity. Qed.

(** The separators 28 to 31 are whitespace for [strip], not for [int]. *)
Example int_separator_ex :
  int (String (ascii_of_nat 28) "7") = Raise ValueError
  ∧ str_strip (String (ascii_of_nat 28) "7 ") = "7"
  ∧ int (String (ascii_of_nat 11) "7 ") = Ok 7.
Proof. repeat split; reflexivity. Qed.

Example split_ex :
  split_list_on_element ["a/1"; "1"; "e1"; "b/2"; "c/3"; "2"; "e2"; "e3"] "/"
  = [["a/1"; "1"; "e1"]; ["b/2"]; ["c/3"; "2"; "e2"; "e3"]]
  ∧ split_list_on_element ["x"; "a/1"; "1"] "/" = [["x"]; ["a/1"; "1"]]
  ∧ split_list_on_element [] "/" = [].
Proof. repeat split; reflexivity. Qed.

Example split_records_ex :
  split_records [3; 0; 4; 1; 2]%nat
    ((λ n, record_of n 1 [] 1) <$> ["a"; "b"; "c"; "d"; "e"])
  = Ok ((λ '(n, t), record_of n 1 [] t)
          <$> [("a", 1); ("b", 1); ("c", 1); ("d", 0); ("e", 1)],
        ([0; 4; 1; 2]%nat, [3]%nat)).
Proof. vm_refl. Qed.

Example mem_roundtrip_ex :
  (write_batch [sample_entry; modify_value sample_entry]
     sample_client created_world).1.1 = Ok ()
  ∧ (get_entry (VStr "2002/08/11/big/img_591") (VInt 1)
       sample_client written_world).1.1
    = Raise (ClientError "ValidationException"
               "The provided key element does not match the schema")
  ∧ (mem_get_item "facial-detection-dataset"
       (schema_key (VStr "2002/08/11/big/img_591") (VInt 1))
       (store written_world)).1
    = Ok {| Item := Some sample_entry |}
  ∧ (mem_get_item "facial-detection-dataset"
       (schema_key (VStr "2002/08/11/big/img_591") (VInt 0))
       (store written_world)).1
    = Ok {| Item := Some (modify_value sample_entry) |}
  ∧ (mem_get_item "facial-detection-dataset"
       (schema_key (VStr "2002/08/11/big/img_1") (VInt 0))
       (store written_world)).1
    = Ok {| Item := None |}.
Proof. split_and!; vm_refl. Qed.

(** ** [split_list_on_element] *)

(** Invariant of the loop: closed groups are nonempty, and the closed groups
    followed by the open one spell the lines read so far. *)
Lemma split_step_inv split_element item res sub :
  Forall nonempty res →
  Forall nonempty (split_step split_element (res, sub) item).1
  ∧ concat (split_step split_element (res, sub) item).1
      ++ (split_step split_element (res, sub) item).2
    = concat res ++ sub ++ [item].
Proof.
  intros Hres. unfold split_step.
  destruct (0 <? find item split_element); [destruct sub as [|l sub]|]; simpl.
  - done.
  - split.
    + apply Forall_app; split; [done|]. by repeat constructor.
    + rewrite concat_app. simpl. by rewrite app_nil_r, <- app_assoc.
  - done.
Qed.

Lemma split_fold_inv split_element input : ∀ res sub,
  Forall nonempty res →
  Forall nonempty (fold_left (split_step split_element) input (res, sub)).1
  ∧ concat (fold_left (split_step split_element) input (res, sub)).1
      ++ (fold_left (split_step split_element) input (res, sub)).2
    = concat res ++ sub ++ input.
Proof.
  induction input as [|item input IH]; intros res sub Hres;
    cbn [fold_left].
  - simpl. by rewrite app_nil_r.
  - destruct (split_step_inv split_element item res sub Hres) as [H1 H2].
    destruct (split_step split_element (res, sub) item) as [res1 sub1] eqn:E.
    destruct (IH res1 sub1 H1) as [H3 H4]. split; [exact H3|].
    rewrite H4. simpl in H2. rewrite app_assoc, H2.
    by rewrite <- !app_assoc.
Qed.

(** C4. For every list of lines and every split element, no group returned
    by [split_list_on_element] is empty, and the groups concatenated in
    order are the input list. *)
Theorem split_list_on_element_partition
    (input_list : list string) (split_element : string) :
  Forall nonempty (split_list_on_element input_list split_element)
  ∧ concat (split_list_on_element input_list split_element) = input_list.
Proof.
  unfold split_list_on_element.
  destruct (split_fold_inv split_element input_list [] [] (Forall_nil_2 _))
    as [H1 H2].
  destruct (fold_left _ _ _) as [res sub]. simpl in *.
  destruct sub as [|l sub].
  - by rewrite app_nil_r in H2.
  - split.
    + apply Forall_app; split; [done|]. by repeat constructor.
    + rewrite concat_app. simpl. by rewrite app_nil_r.
Qed.

(** ** [map_list_to_json] *)

Lemma record_of_fields name n faces t :
  record_of name n faces t !! "image_name" = Some (VStr name)
  ∧ record_of name n faces t !! "num_faces" = Some (VInt n)
  ∧ record_of name n faces t !! "faces" = Some (VList faces)
  ∧ record_of name n faces t !! "train_set" = Some (VInt t)
  ∧ dom (record_of name n faces t)
    = ({["image_name"; "num_faces"; "faces"; "train_set"]} : gset string).
Proof.
  unfold record_of. split_and!; try by simplify_map_eq.
  all: rewrite !dom_insert_L, dom_empty_L; set_solver.
Qed.



(** ** [do_batch_get] *)

(** [collect] succeeds when the response names requested tables only, and
    then appends to every table what the response lists under it. *)
Lemma collect_spec (responses : list (string * list item)) :
  ∀ retrieved : gmap string (list item),
  (∀ t, t ∈ responses.*1 → t ∈ dom retrieved) →
  ∃ acc, collect responses retrieved = Ok acc
    ∧ dom acc = dom retrieved
    ∧ ∀ t got, retrieved !! t = Some got →
        acc !! t = Some (got ++ returned_for t responses).
Proof.
  induction responses as [|[key items] rest IH]; intros retrieved Hdom.
  - exists retrieved. split_and!; [done..|].
    intros t got Ht. by rewrite app_nil_r.
  - simpl. assert (key ∈ dom retrieved) as Hkey
      by (apply Hdom; rewrite fmap_cons; by left).
    apply elem_of_dom in Hkey as [got0 Hgot0]. rewrite Hgot0.
    destruct (IH (<[key := got0 ++ items]> retrieved)) as (acc & Hacc & Hd & Hl).
    { intros t Ht. rewrite dom_insert_L. apply elem_of_union_r, Hdom.
      rewrite fmap_cons. by right. }
    exists acc. split_and!; [done| |].
    + rewrite Hd, dom_insert_L.
      apply subseteq_union_1_L, singleton_subseteq_l, elem_of_dom. eauto.
    + intros t got Ht. unfold returned_for. rewrite filter_cons. simpl.
      destruct (decide (key = t)) as [->|Hne].
      * rewrite (Hl t (got0 ++ items)) by apply lookup_insert_eq.
        simplify_eq. simpl. by rewrite <- app_assoc.
      * rewrite (Hl t got); [done|]. by rewrite lookup_insert_ne.
Qed.

Lemma accumulate_ok (rs : list batch_get_response) :
  ∀ (batch_keys : gmap string (list item)) retrieved,
  dom retrieved = dom batch_keys →
  Forall (names_requested batch_keys) rs →
  ∃ acc, accumulate rs retrieved = Ok acc ∧ dom acc = dom batch_keys.
Proof.
  induction rs as [|r rs IH]; intros batch_keys retrieved Hdom Hrs.
  - by exists retrieved.
  - apply Forall_cons in Hrs as [Hr Hrs]. simpl.
    destruct (collect_spec (default [] (Responses r)) retrieved)
      as (acc1 & Hacc1 & Hd1 & _).
    { intros t Ht. rewrite Hdom. by apply Hr. }
    rewrite Hacc1. simpl. apply IH; [congruence|done].
Qed.

Section BatchGetProperties.
Context {St : Type}.
Variable batch_get_item :
  gmap string (list item) → St → result batch_get_response * St.

Lemma responses_of_S n batch_keys s :
  responses_of batch_get_item (S n) batch_keys s
  = match batch_get_item batch_keys s with
    | (Ok response, s) =>
        response :: responses_of batch_get_item n (UnprocessedKeys response) s
    | (Raise _, _) => []
    end.
Proof. reflexivity. Qed.

Lemma requests_of_S n batch_keys s :
  requests_of batch_get_item (S n) batch_keys s
  = batch_keys ::
    match batch_get_item batch_keys s with
    | (Ok response, s) =>
        requests_of batch_get_item n (UnprocessedKeys response) s
    | (Raise _, _) => []
    end.
Proof. reflexivity. Qed.

(** A run of [S n] calls: all but the last response leave keys
    unprocessed, and the last one either leaves none or is the one that
    uses up the tries.  The loop returns the accumulator and has made the
    calls with a doubling sleep between two of them. *)
Lemma do_batch_get_loop_run (n : nat) :
  ∀ fuel tries sleepy_time batch_keys retrieved s trace acc,
  (S n < fuel)%nat →
  0 ≤ tries → tries + Z.of_nat (S n) ≤ max_tries →
  length (responses_of batch_get_item (S n) batch_keys s) = S n →
  Forall has_unprocessed
    (take n (responses_of batch_get_item (S n) batch_keys s)) →
  (tries + Z.of_nat (S n) = max_tries
   ∨ ∀ r, last (responses_of batch_get_item (S n) batch_keys s) = Some r →
          ¬ has_unprocessed r) →
  accumulate (responses_of batch_get_item (S n) batch_keys s) retrieved
    = Ok acc →
  ∃ s',
    do_batch_get_loop batch_get_item fuel tries sleepy_time batch_keys
      retrieved s trace
    = Some (Ok acc, s',
            trace ++ backoff_trace sleepy_time
                       (requests_of batch_get_item (S n) batch_keys s)).
Proof.
  unfold max_tries.
  induction n as [|n IH];
    intros fuel tries sleepy_time batch_keys retrieved s trace acc
      Hfuel Htries Hmax Hlen Hunp Hlast Hacc.
  - destruct fuel as [|[|fuel]]; [lia..|].
    cbn [responses_of requests_of] in *.
    cbn [do_batch_get_loop]. unfold max_tries.
    destruct (batch_get_item batch_keys s) as [[r|e] s1]; [|done].
    assert ((tries <? 5) = true) as -> by lia.
    cbn [accumulate] in Hacc.
    destruct (collect _ retrieved) as [retrieved1|e] eqn:Hc; [|done].
    simpl in Hacc. simplify_eq.
    destruct (0 <? size (UnprocessedKeys r))%nat eqn:Hsz.
    + destruct Hlast as [Hlast|Hlast].
      * assert ((tries + 1 <? 5) = false) as -> by lia.
        by eexists.
      * exfalso. apply (Hlast r); [done|].
        unfold has_unprocessed. by apply Nat.ltb_lt.
    + by eexists.
  - destruct fuel as [|fuel]; [lia|].
    rewrite responses_of_S in Hlen, Hunp, Hlast, Hacc.
    rewrite requests_of_S.
    cbn [do_batch_get_loop]. unfold max_tries.
    destruct (batch_get_item batch_keys s) as [[r|e] s1] eqn:Hcall;
      [|done].
    assert ((tries <? 5) = true) as -> by lia.
    cbn [accumulate] in Hacc.
    destruct (collect _ retrieved) as [retrieved1|e] eqn:Hc; [|done].
    cbn [length] in Hlen. rewrite firstn_cons in Hunp.
    apply Forall_cons in Hunp as [Hr Hunp].
    unfold has_unprocessed in Hr. apply Nat.ltb_lt in Hr. rewrite Hr.
    assert ((tries + 1 <? 5) = true) as -> by lia.
    destruct (IH fuel (tries + 1) (Z.min (sleepy_time * 2) 32)
                (UnprocessedKeys r) retrieved1 s1
                (trace ++ [BatchGetItem batch_keys] ++ [Sleep sleepy_time])
                acc) as [s' Hs']; try done; try lia.
    + destruct Hlast as [Hlast|Hlast]; [left; lia|right].
      intros r' Hr'. apply Hlast. rewrite last_cons, Hr'. done.
    + exists s'. rewrite <- app_assoc. rewrite Hs'.
      rewrite (requests_of_S n). cbn [backoff_trace].
      by rewrite <- !app_assoc.
Qed.

(** The loop ends: every pass that does not leave it increments [tries],
    so [max_tries - tries + 1] units of fuel are enough. *)
Lemma do_batch_get_loop_total (fuel : nat) :
  ∀ tries sleepy_time batch_keys retrieved s trace,
  (Z.to_nat (max_tries - tries) < fuel)%nat →
  is_Some (do_batch_get_loop batch_get_item fuel tries sleepy_time batch_keys
             retrieved s trace).
Proof.
  unfold max_tries.
  induction fuel as [|fuel IH];
    intros tries sleepy_time batch_keys retrieved s trace Hfuel; [lia|].
  cbn [do_batch_get_loop]. unfold max_tries.
  destruct (tries <? 5) eqn:Htries; [|done]. apply Z.ltb_lt in Htries.
  destruct (batch_get_item batch_keys s) as [[r|e] s1]; [|done].
  destruct (collect _ retrieved) as [retrieved1|e]; [|done].
  destruct (0 <? size (UnprocessedKeys r))%nat; [|done].
  destruct (tries + 1 <? 5); apply IH; lia.
Qed.

Lemma do_batch_get_total batch_keys s :
  is_Some (do_batch_get batch_get_item batch_keys s).
Proof. apply do_batch_get_loop_total. unfold max_tries. simpl. lia. Qed.

Lemma requests_of_length (n : nat) : ∀ batch_keys s,
  length (responses_of batch_get_item n batch_keys s) = n →
  length (requests_of batch_get_item n batch_keys s) = n.
Proof.
  induction n as [|n IH]; intros batch_keys s Hlen; [done|].
  rewrite responses_of_S in Hlen. rewrite requests_of_S.
  destruct (batch_get_item batch_keys s) as [[r|e] s1]; [|done].
  simpl in *. f_equal. apply IH. lia.
Qed.
End BatchGetProperties.

Lemma accumulate_ext (rs1 : list batch_get_response) :
  ∀ rs2 retrieved,
  Responses <$> rs1 = Responses <$> rs2 →
  accumulate rs1 retrieved = accumulate rs2 retrieved.
Proof.
  induction rs1 as [|r1 rs1 IH]; intros [|r2 rs2] retrieved Heq;
    simplify_eq/=; [done|].
  rewrite H. destruct (collect _ retrieved); simpl; [by apply IH|done].
Qed.

Lemma backoff_trace_five k0 k1 k2 k3 k4 :
  backoff_trace 1 [k0; k1; k2; k3; k4]
  = [BatchGetItem k0; Sleep 1; BatchGetItem k1; Sleep 2; BatchGetItem k2;
     Sleep 4; BatchGetItem k3; Sleep 8; BatchGetItem k4].
Proof. reflexivity. Qed.

(** Five calls in a row that all leave keys unprocessed use up the tries:
    the loop ends without an error, having made the five calls with a sleep
    between two of them. *)
Lemma do_batch_get_exhausted {St : Type}
    (batch_get_item :
       gmap string (list item) → St → result batch_get_response * St)
    (batch_keys : gmap string (list item)) (s : St) :
  length (responses_of batch_get_item 5 batch_keys s) = 5%nat →
  Forall has_unprocessed (responses_of batch_get_item 5 batch_keys s) →
  Forall (names_requested batch_keys)
    (responses_of batch_get_item 5 batch_keys s) →
  ∃ acc s',
    do_batch_get batch_get_item batch_keys s
    = Some (Ok acc, s',
            backoff_trace 1 (requests_of batch_get_item 5 batch_keys s))
    ∧ accumulate (responses_of batch_get_item 5 batch_keys s)
        ((λ _, []) <$> batch_keys) = Ok acc.
Proof.
  intros Hlen Hunp Hnames.
  destruct (accumulate_ok _ batch_keys ((λ _, []) <$> batch_keys)
              (dom_fmap_L _ _) Hnames) as (acc & Hacc & _).
  destruct (do_batch_get_loop_run batch_get_item 4 6 0 1 batch_keys
              ((λ _, []) <$> batch_keys) s [] acc) as [s' Hs'];
    try done; try (unfold max_tries; lia).
  { by apply Forall_take. }
  by exists acc, s'.
Qed.

(** C2, as the code has it.  When each of five calls in a row returns with
    unprocessed keys (and names requested tables only), [do_batch_get]
    makes exactly those five calls, sleeps between two calls only, so that
    the delays are 1, 2, 4, 8, and returns what the five responses added
    to the accumulator. *)
Theorem do_batch_get_worst_case {St : Type}
    (batch_get_item :
       gmap string (list item) → St → result batch_get_response * St)
    (batch_keys : gmap string (list item)) (s : St) :
  length (responses_of batch_get_item 5 batch_keys s) = 5%nat →
  Forall has_unprocessed (responses_of batch_get_item 5 batch_keys s) →
  Forall (names_requested batch_keys)
    (responses_of batch_get_item 5 batch_keys s) →
  ∃ acc s' trace,
    do_batch_get batch_get_item batch_keys s = Some (Ok acc, s', trace)
    ∧ calls_of trace = requests_of batch_get_item 5 batch_keys s
    ∧ length (calls_of trace) = 5%nat
    ∧ sleeps_of trace = [1; 2; 4; 8]
    ∧ accumulate (responses_of batch_get_item 5 batch_keys s)
        ((λ _, []) <$> batch_keys) = Ok acc
    ∧ trace = backoff_trace 1 (requests_of batch_get_item 5 batch_keys s)
    ∧ ∃ k1 k2 k3 k4,
        requests_of batch_get_item 5 batch_keys s
        = [batch_keys; k1; k2; k3; k4]
        ∧ trace
          = [BatchGetItem batch_keys; Sleep 1; BatchGetItem k1; Sleep 2;
             BatchGetItem k2; Sleep 4; BatchGetItem k3; Sleep 8;
             BatchGetItem k4].
Proof.
  intros Hlen Hunp Hnames.
  destruct (do_batch_get_exhausted batch_get_item batch_keys s
              Hlen Hunp Hnames) as (acc & s' & Hrun & Hacc).
  pose proof (requests_of_length batch_get_item 5 batch_keys s Hlen) as Hreq.
  destruct (requests_of batch_get_item 5 batch_keys s)
    as [|k0 [|k1 [|k2 [|k3 [|k4 [|k5 ks]]]]]] eqn:Hks; try done.
  assert (k0 = batch_keys) as ->.
  { rewrite requests_of_S in Hks. congruence. }
  exists acc, s', (backoff_trace 1 [batch_keys; k1; k2; k3; k4]).
  rewrite backoff_trace_five in *. split_and!; try done.
  by exists k1, k2, k3, k4.
Qed.

Lemma do_batch_get_worst_case_witness :
  ∃ acc s' trace,
    do_batch_get stubborn_store one_key_request () = Some (Ok acc, s', trace)
    ∧ calls_of trace = requests_of stubborn_store 5 one_key_request ()
    ∧ length (calls_of trace) = 5%nat
    ∧ sleeps_of trace = [1; 2; 4; 8]
    ∧ accumulate (responses_of stubborn_store 5 one_key_request ())
        ((λ _, []) <$> one_key_request) = Ok acc
    ∧ trace = backoff_trace 1 (requests_of stubborn_store 5 one_key_request ())
    ∧ ∃ k1 k2 k3 k4,
        requests_of stubborn_store 5 one_key_request ()
        = [one_key_request; k1; k2; k3; k4]
        ∧ trace
          = [BatchGetItem one_key_request; Sleep 1; BatchGetItem k1; Sleep 2;
             BatchGetItem k2; Sleep 4; BatchGetItem k3; Sleep 8;
             BatchGetItem k4].
Proof.
  apply (do_batch_get_worst_case stubborn_store one_key_request ()).
  - reflexivity.
  - repeat constructor.
  - repeat constructor; intros t Ht; inversion Ht.
Defined.

(** C2, counterexample to the delay sequence 1, 2, 4, 8, 16: against a store
    that leaves the key unprocessed at each of the five calls, the function
    sleeps four times, and never for 16 seconds. *)
Lemma do_batch_get_no_fifth_sleep :
  Forall has_unprocessed (responses_of stubborn_store 5 one_key_request ())
  ∧ (λ out, (length (calls_of out.2), sleeps_of out.2))
      <$> do_batch_get stubborn_store one_key_request ()
    = Some (5%nat, [1; 2; 4; 8])
  ∧ (λ out, sleeps_of out.2)
      <$> do_batch_get stubborn_store one_key_request ()
    ≠ Some [1; 2; 4; 8; 16].
Proof.
  split_and!.
  - repeat constructor.
  - reflexivity.
  - vm_compute. discriminate.
Qed.

(** C3, as the code has it.  (1) When the first response leaves no key
    unprocessed and names requested tables only, one call is made and the
    result holds, for each requested table, the items the response lists
    under it.  (2) When each of five calls returns with unprocessed keys
    and names requested tables only, the function returns the accumulator
    without raising; any execution of five calls whose responses carry the
    same items but whose last response leaves nothing unprocessed returns
    the same value, so the caller cannot tell the partial result from a
    complete one. *)
Theorem do_batch_get_single_call_and_silent_partial {St : Type}
    (batch_get_item :
       gmap string (list item) → St → result batch_get_response * St)
    (batch_keys : gmap string (list item)) (s : St) :
  (∀ r s',
     batch_get_item batch_keys s = (Ok r, s') →
     ¬ has_unprocessed r →
     names_requested batch_keys r →
     ∃ acc,
       do_batch_get batch_get_item batch_keys s
       = Some (Ok acc, s', [BatchGetItem batch_keys])
       ∧ dom acc = dom batch_keys
       ∧ ∀ t, t ∈ dom batch_keys →
           acc !! t = Some (returned_for t (default [] (Responses r))))
  ∧ (length (responses_of batch_get_item 5 batch_keys s) = 5%nat →
     Forall has_unprocessed (responses_of batch_get_item 5 batch_keys s) →
     Forall (names_requested batch_keys)
       (responses_of batch_get_item 5 batch_keys s) →
     ∃ acc s' trace,
       do_batch_get batch_get_item batch_keys s = Some (Ok acc, s', trace)
       ∧ length (calls_of trace) = 5%nat
       ∧ accumulate (responses_of batch_get_item 5 batch_keys s)
           ((λ _, []) <$> batch_keys) = Ok acc
       ∧ ∀ (St2 : Type)
           (complete_get_item :
              gmap string (list item) → St2 → result batch_get_response * St2)
           (s2 : St2),
           length (responses_of complete_get_item 5 batch_keys s2) = 5%nat →
           Forall has_unprocessed
             (take 4 (responses_of complete_get_item 5 batch_keys s2)) →
           (∀ r, last (responses_of complete_get_item 5 batch_keys s2) = Some r →
                 ¬ has_unprocessed r) →
           Responses <$> responses_of complete_get_item 5 batch_keys s2
           = Responses <$> responses_of batch_get_item 5 batch_keys s →
           ∃ s2' trace2,
             do_batch_get complete_get_item batch_keys s2
             = Some (Ok acc, s2', trace2)).
Proof.
  split.
  - intros r s' Hcall Hnone Hnames.
    destruct (collect_spec (default [] (Responses r)) ((λ _, []) <$> batch_keys))
      as (acc & Hacc & Hdom & Hl).
    { intros t Ht. rewrite dom_fmap_L. by apply Hnames. }
    exists acc. split_and!.
    + unfold do_batch_get. change (S (Z.to_nat max_tries)) with 6%nat.
      cbn [do_batch_get_loop]. unfold max_tries.
      change (0 <? 5) with true. cbv iota. rewrite Hcall, Hacc.
      destruct (0 <? size (UnprocessedKeys r))%nat eqn:Hsz; [|done].
      exfalso. apply Hnone. unfold has_unprocessed. by apply Nat.ltb_lt.
    + by rewrite Hdom, dom_fmap_L.
    + intros t Ht. apply elem_of_dom in Ht as [ks Hks].
      rewrite (Hl t []); [done|]. by rewrite lookup_fmap, Hks.
  - intros Hlen Hunp Hnames.
    destruct (do_batch_get_exhausted batch_get_item batch_keys s
                Hlen Hunp Hnames) as (acc & s' & Hrun & Hacc).
    pose proof (requests_of_length batch_get_item 5 batch_keys s Hlen) as Hreq.
    exists acc, s',
      (backoff_trace 1 (requests_of batch_get_item 5 batch_keys s)).
    split_and!; [done| |done|].
    { destruct (requests_of batch_get_item 5 batch_keys s)
        as [|k0 [|k1 [|k2 [|k3 [|k4 [|k5 ks]]]]]]; done. }
    intros St2 complete_get_item s2 Hlen2 Hunp2 Hlast2 Hsame.
    destruct (do_batch_get_loop_run complete_get_item 4 6 0 1 batch_keys
                ((λ _, []) <$> batch_keys) s2 [] acc) as [s2' Hs2'];
      try done; try (unfold max_tries; lia).
    + by rewrite (accumulate_ext _ _ _ Hsame).
    + by exists s2', ([] ++ backoff_trace 1
                         (requests_of complete_get_item 5 batch_keys s2)).
Qed.

Lemma do_batch_get_single_call_and_silent_partial_witness :
  (∃ acc,
     do_batch_get (serving_store 0) one_key_request 0%nat
     = Some (Ok acc, 1%nat, [BatchGetItem one_key_request])
     ∧ dom acc = dom one_key_request
     ∧ ∀ t, t ∈ dom one_key_request →
         acc !! t
         = Some (returned_for t
                   [("facial-detection-dataset", [sample_entry])]))
  ∧ ∃ acc s' trace,
      do_batch_get (serving_store 5) one_key_request 0%nat
      = Some (Ok acc, s', trace)
      ∧ length (calls_of trace) = 5%nat
      ∧ accumulate (responses_of (serving_store 5) 5 one_key_request 0%nat)
          ((λ _, []) <$> one_key_request) = Ok acc
      ∧ ∃ s2' trace2,
          do_batch_get (serving_store 4) one_key_request 0%nat
          = Some (Ok acc, s2', trace2).
Proof.
  assert (∀ r, response_tables r = ["facial-detection-dataset"] →
               names_requested one_key_request r) as Hnamed.
  { intros r Hr t Ht. rewrite Hr in Ht.
    apply list_elem_of_singleton in Ht as ->.
    unfold one_key_request. rewrite dom_singleton_L.
    by apply elem_of_singleton. }
  split.
  - destruct (do_batch_get_single_call_and_silent_partial
                (serving_store 0) one_key_request 0%nat) as [H1 _].
    apply (H1 {| Responses :=
                   Some [("facial-detection-dataset", [sample_entry])];
                 UnprocessedKeys := ∅ |} 1%nat).
    + reflexivity.
    + unfold has_unprocessed. simpl. rewrite map_size_empty. lia.
    + by apply Hnamed.
  - destruct (do_batch_get_single_call_and_silent_partial
                (serving_store 5) one_key_request 0%nat) as [_ H2].
    destruct H2 as (acc & s' & trace & H3 & H4 & H5 & H6).
    + reflexivity.
    + repeat constructor.
    + repeat constructor; by apply Hnamed.
    + exists acc, s', trace. split_and!; [exact H3|exact H4|exact H5|].
      apply (H6 nat (serving_store 4) 0%nat).
      * reflexivity.
      * repeat constructor.
      * intros r Hr.
        cbn [responses_of serving_store last Nat.eqb UnprocessedKeys] in Hr.
        injection Hr as <-.
        unfold has_unprocessed. simpl. rewrite map_size_empty. lia.
      * reflexivity.
Defined.

(** C3, counterexample to the first part as the claim has it: the response
    leaves no key unprocessed but lists an item under a table that was not
    requested.  One call is made, and [retrieved[key] += ...] raises
    [KeyError]: no result is returned. *)
Lemma do_batch_get_single_call_key_error :
  (∀ r s', confused_store one_key_request () = (Ok r, s') →
           ¬ has_unprocessed r)
  ∧ do_batch_get confused_store one_key_request ()
    = Some (Raise (KeyError "other-table"), (),
            [BatchGetItem one_key_request]).
Proof.
  split.
  - intros r s' Hr. injection Hr as <- _.
    unfold has_unprocessed. simpl. rewrite map_size_empty. lia.
  - reflexivity.
Qed.

(** ** The train/test split *)

Lemma bind_Ok {A B} (f : A → result B) (a : A) : Ok a ≫= f = f a.
Proof. reflexivity. Qed.

Lemma mapM_result_cons {A B} (f : A → result B) (a : A) (l : list A) :
  mapM f (a :: l)
  = match f a with
    | Ok b => match mapM f l with Ok k => Ok (b :: k) | Raise e => Raise e end
    | Raise e => Raise e
    end.
Proof. reflexivity. Qed.

Lemma mapM_getitem_seq (n : nat) (idxs : list nat) :
  Forall (λ i, i < n)%nat idxs → mapM (getitem (seq 0 n)) idxs = Ok idxs.
Proof.
  induction 1 as [|i idxs Hi _ IH]; [done|].
  rewrite mapM_result_cons, IH. unfold getitem.
  by rewrite lookup_seq_lt by done.
Qed.

Lemma n_test_of_bounds (n : nat) :
  (n ≤ 5 * n_test_of n ≤ n + 4)%nat.
Proof.
  unfold n_test_of.
  pose proof (Nat.div_mod_eq (n + 4) 5).
  pose proof (Nat.mod_upper_bound (n + 4) 5). lia.
Qed.

Lemma n_train_zero (n : nat) :
  (n - n_test_of n = 0)%nat ↔ (n < 2)%nat.
Proof. pose proof (n_test_of_bounds n). lia. Qed.

Lemma permutation_bounds (permutation : list nat) (n : nat) :
  permutation ≡ₚ seq 0 n → Forall (λ i, i < n)%nat permutation.
Proof.
  intros Hp. rewrite Hp. apply Forall_forall. intros i Hi.
  apply elem_of_seq in Hi. lia.
Qed.

(** On fresh references the split hands out the drawn positions. *)
Lemma train_test_split_seq (permutation : list nat) (n : nat) :
  permutation ≡ₚ seq 0 n → (2 ≤ n)%nat →
  train_test_split permutation (seq 0 n)
  = Ok (drop (n_test_of n) permutation, take (n_test_of n) permutation).
Proof.
  intros Hp Hn. unfold train_test_split. rewrite length_seq.
  pose proof (n_test_of_bounds n) as Hb.
  assert ((n - n_test_of n =? 0)%nat = false) as ->
    by (apply Nat.eqb_neq; lia).
  pose proof (permutation_bounds _ _ Hp) as Hlt.
  assert (length permutation = n) as Hlen
    by by rewrite Hp, length_seq.
  rewrite (take_ge (drop _ _)) by (rewrite length_drop; lia).
  rewrite !mapM_getitem_seq; [done|by apply Forall_drop|by apply Forall_take].
Qed.

Lemma train_test_split_small {A} (permutation : list nat) (arrays : list A) :
  (length arrays < 2)%nat →
  train_test_split permutation arrays = Raise ValueError.
Proof.
  intros Hn. unfold train_test_split.
  apply n_train_zero, Nat.eqb_eq in Hn. by rewrite Hn.
Qed.

Lemma modify_value_idemp (d : gmap string value) :
  modify_value (modify_value d) = modify_value d.
Proof. apply insert_insert_eq. Qed.

(** The object store after tagging: the referenced dictionaries are
    modified, the others are as before. *)
Lemma modify_all_lookup (test : list ref) : ∀ (h : heap) (r : ref),
  modify_all test h !! r
  = (if decide (r ∈ test) then modify_value else id) <$> h !! r.
Proof.
  unfold modify_all.
  induction test as [|a test IH]; intros h r; cbn [foldl].
  - rewrite decide_False by set_solver. by destruct (h !! r).
  - rewrite IH. destruct (decide (a = r)) as [->|Hne].
    + rewrite list_lookup_alter_eq.
      rewrite (decide_True _ _ (list_elem_of_here _ _)).
      destruct (h !! r) as [d|]; [|by case_decide]. simpl.
      case_decide; simpl; by rewrite ?modify_value_idemp.
    + rewrite list_lookup_alter_ne by done.
      destruct (decide (r ∈ test)) as [Hin|Hnin].
      * by rewrite decide_True by by right.
      * rewrite decide_False; [done|].
        intros Hin. apply elem_of_cons in Hin as [->|Hin]; done.
Qed.

Lemma modify_all_length (test : list ref) : ∀ h : heap,
  length (modify_all test h) = length h.
Proof.
  unfold modify_all. induction test as [|a test IH]; intros h; [done|].
  cbn [foldl]. by rewrite IH, length_alter.
Qed.

Lemma contents_cons (h : heap) (r : ref) (rs : list ref) :
  contents h (r :: rs)
  = match h !! r with
    | Some d => d :: contents h rs
    | None => contents h rs
    end.
Proof. reflexivity. Qed.

Lemma contents_seq_app (h k : heap) :
  contents (k ++ h) (seq (length k) (length h)) = h.
Proof.
  revert k. induction h as [|d h IH]; intros k; [done|].
  cbn [length seq]. rewrite contents_cons.
  rewrite list_lookup_middle by done.
  f_equal. specialize (IH (k ++ [d])).
  rewrite length_app, Nat.add_1_r, <- app_assoc in IH. exact IH.
Qed.

Lemma contents_seq (h : heap) : contents h (seq 0 (length h)) = h.
Proof. apply (contents_seq_app h []). Qed.

Lemma image_names_modify_all (test : list ref) (h : heap) :
  image_names (modify_all test h) = image_names h.
Proof.
  apply list_eq. intros i. unfold image_names.
  rewrite !list_lookup_fmap, modify_all_lookup.
  destruct (h !! i) as [d|]; [|done]. simpl. f_equal.
  case_decide; [|done]. unfold modify_value. by rewrite lookup_insert_ne.
Qed.

Lemma untagged_modify_all (test : list ref) (h : heap) :
  untagged <$> modify_all test h = untagged <$> h.
Proof.
  apply list_eq. intros i.
  rewrite !list_lookup_fmap, modify_all_lookup.
  destruct (h !! i) as [d|]; [|done]. simpl. f_equal.
  case_decide; [|done]. unfold untagged, modify_value.
  apply delete_insert_eq.
Qed.

(** Reading the names through the references never fails when every
    object has a name and every reference is bound. *)
Lemma mapM_names (h : heap) (x : list ref) :
  Forall is_Some (image_names h) →
  Forall (λ r, r < length h)%nat x →
  ∃ names,
    mapM (λ r, d ← deref h r; getkey d "image_name") x = Ok names
    ∧ Some <$> names = image_names (contents h x).
Proof.
  intros Hh. induction 1 as [|r x Hr _ (names & Hn & Heq)].
  - by exists [].
  - apply lookup_lt_is_Some in Hr as [d Hd].
    assert (image_names h !! r = Some (d !! "image_name")) as Hr
      by (unfold image_names; by rewrite list_lookup_fmap, Hd).
    pose proof (Forall_lookup_1 _ _ _ _ Hh Hr) as [v Hv].
    exists (v :: names). rewrite mapM_result_cons, Hn.
    rewrite contents_cons.
    unfold deref, getitem, getkey. rewrite Hd. cbn. rewrite Hv. split; [done|].
    f_equal. exact Heq.
Qed.

Lemma count_not_in (names : list value) (v : value) :
  v ∉ names → count names v = 0%nat.
Proof.
  unfold count. induction names as [|a names IH]; intros Hv; [done|].
  rewrite filter_cons, decide_False by set_solver.
  apply IH. set_solver.
Qed.

Lemma count_NoDup (names : list value) (v : value) :
  NoDup names → (count names v ≤ 1)%nat.
Proof.
  induction 1 as [|a names Ha _ IH]; [unfold count; simpl; lia|].
  unfold count in *. rewrite filter_cons.
  destruct (decide (a = v)) as [->|Hne]; [|done].
  pose proof (count_not_in names v Ha) as H0. unfold count in H0.
  simpl. lia.
Qed.

(** The assertion of line 125 passes on a list without repetition. *)
Lemma no_duplicates_found (names : list value) :
  NoDup names →
  filter (λ n, (1 <? count names n)%nat = true) names = [].
Proof.
  intros Hnd.
  assert (∀ l : list value,
            filter (λ n, (1 <? count names n)%nat = true) l = []) as Hall.
  { induction l as [|a l IH]; [done|].
    rewrite filter_cons, decide_False; [done|].
    pose proof (count_NoDup names a Hnd). intros Hlt.
    apply Nat.ltb_lt in Hlt. lia. }
  apply Hall.
Qed.

Lemma contents_length (h : heap) (rs : list ref) :
  Forall (λ r, r < length h)%nat rs → length (contents h rs) = length rs.
Proof.
  induction 1 as [|r rs Hr _ IH]; [done|].
  apply lookup_lt_is_Some in Hr as [d Hd].
  rewrite contents_cons, Hd. simpl. by rewrite IH.
Qed.

Lemma contents_Forall (P : gmap string value → Prop) (h : heap)
    (rs : list ref) :
  (∀ r d, r ∈ rs → h !! r = Some d → P d) → Forall P (contents h rs).
Proof.
  induction rs as [|r rs IH]; intros HP; [constructor|].
  rewrite contents_cons. destruct (h !! r) as [d|] eqn:Hd.
  - constructor; [apply (HP r); [left|done]|].
    apply IH. intros r' d' Hr'. apply HP. by right.
  - apply IH. intros r' d' Hr'. apply HP. by right.
Qed.

Lemma built_record (d : gmap string value) :
  built d → ∃ name n faces, d = record_of name n faces 1.
Proof.
  intros [x Hx]. unfold map_list_to_json in Hx.
  destruct x as [|name [|cnt faces]]; try done.
  cbn in Hx. destruct (int cnt) as [n|e]; [|done]. cbn in Hx.
  exists name, n, faces. by simplify_eq.
Qed.

Lemma modify_all_Permutation (t1 t2 : list ref) (h : heap) :
  t1 ≡ₚ t2 → modify_all t1 h = modify_all t2 h.
Proof.
  intros Hp. apply list_eq. intros i. rewrite !modify_all_lookup.
  destruct (decide (i ∈ t1)) as [H1|H1].
  - by rewrite decide_True by by rewrite <- Hp.
  - by rewrite decide_False by by rewrite <- Hp.
Qed.

(** What the split returns on fresh records with distinct names: the object
    store with the drawn test objects modified, the train references and
    the test references. *)
Lemma split_records_ok (permutation : list nat) (records : heap) :
  permutation ≡ₚ seq 0 (length records) →
  Forall is_Some (image_names records) →
  NoDup (image_names records) →
  (2 ≤ length records)%nat →
  split_records permutation records
  = Ok (modify_all (take (n_test_of (length records)) permutation) records,
        (drop (n_test_of (length records)) permutation,
         take (n_test_of (length records)) permutation)).
Proof.
  intros Hp Hsome Hnd Hn. unfold split_records, split_and_tag.
  rewrite train_test_split_seq by done. rewrite bind_Ok. cbv beta iota zeta.
  set (nt := n_test_of (length records)).
  set (h := modify_all (take nt permutation) records).
  pose proof (permutation_bounds _ _ Hp) as Hlt.
  assert (length h = length records) as Hlen by apply modify_all_length.
  assert (drop nt permutation ++ take nt permutation ≡ₚ seq 0 (length h))
    as Hx.
  { rewrite Hlen, <- Hp. rewrite Permutation_app_comm.
    by rewrite take_drop. }
  destruct (mapM_names h (drop nt permutation ++ take nt permutation))
    as (names & Hnames & Heq).
  { unfold h. by rewrite image_names_modify_all. }
  { rewrite Hlen. apply Forall_app. split;
      [by apply Forall_drop|by apply Forall_take]. }
  rewrite Hnames, bind_Ok.
  assert (NoDup names) as Hnd'.
  { apply (NoDup_fmap_1 Some). rewrite Heq. unfold image_names, contents.
    rewrite Hx. fold (contents h (seq 0 (length h))).
    rewrite contents_seq. fold (image_names h). unfold h.
    by rewrite image_names_modify_all. }
  by rewrite no_duplicates_found.
Qed.

Lemma built_named (records : heap) :
  Forall built records → Forall is_Some (image_names records).
Proof.
  intros Hb. unfold image_names. apply Forall_fmap.
  eapply Forall_impl; [exact Hb|]. intros d Hd.
  destruct (built_record d Hd) as (name & n & faces & ->).
  simpl. unfold record_of. rewrite lookup_insert_eq. by eexists.
Qed.

(** C6, as the code has it.  [train_test_split] is called without a seed:
    the assignment is decided by the permutation the process-wide generator
    draws.  Two runs on the same records in which the same positions are
    drawn for the test part tag the same records test and the same records
    train. *)
Theorem split_records_same_draw (permutation1 permutation2 : list nat)
    (records : heap) :
  permutation1 ≡ₚ seq 0 (length records) →
  permutation2 ≡ₚ seq 0 (length records) →
  Forall built records →
  NoDup (image_names records) →
  (2 ≤ length records)%nat →
  take (n_test_of (length records)) permutation1
    ≡ₚ take (n_test_of (length records)) permutation2 →
  ∃ h train1 test1 train2 test2,
    split_records permutation1 records = Ok (h, (train1, test1))
    ∧ split_records permutation2 records = Ok (h, (train2, test2))
    ∧ train1 ≡ₚ train2
    ∧ test1 ≡ₚ test2.
Proof.
  intros Hp1 Hp2 Hb Hnd Hn Htest.
  pose proof (built_named records Hb) as Hsome.
  set (nt := n_test_of (length records)) in *.
  exists (modify_all (take nt permutation1) records),
    (drop nt permutation1), (take nt permutation1),
    (drop nt permutation2), (take nt permutation2).
  split_and!.
  - by apply split_records_ok.
  - rewrite (modify_all_Permutation _ _ _ Htest). by apply split_records_ok.
  - apply (Permutation_app_inv_l (take nt permutation1)).
    rewrite take_drop. rewrite Htest, take_drop. by rewrite Hp1, Hp2.
  - done.
Qed.

Lemma split_records_same_draw_witness :
  ∃ h train1 test1 train2 test2,
    split_records [3; 0; 4; 1; 2]%nat five_records = Ok (h, (train1, test1))
    ∧ split_records [3; 4; 2; 1; 0]%nat five_records = Ok (h, (train2, test2))
    ∧ train1 ≡ₚ train2
    ∧ test1 ≡ₚ test2.
Proof.
  apply (split_records_same_draw [3; 0; 4; 1; 2]%nat [3; 4; 2; 1; 0]%nat
           five_records).
  - by apply (bool_decide_unpack _).
  - by apply (bool_decide_unpack _).
  - repeat constructor; by eexists [_; "1"].
  - by apply (bool_decide_unpack _).
  - simpl. lia.
  - reflexivity.
Defined.

(** C6, counterexample: the script takes no seed, and two runs on the same
    two records tag different records test when the generator draws
    different permutations. *)
Lemma split_records_depends_on_draw :
  tag_after [0; 1]%nat two_records 0 = Some (VInt 0)
  ∧ tag_after [1; 0]%nat two_records 0 = Some (VInt 1)
  ∧ split_records [0; 1]%nat two_records
    ≠ split_records [1; 0]%nat two_records.
Proof.
  assert (tag_after [0; 1]%nat two_records 0 = Some (VInt 0)) as H0
    by vm_refl.
  assert (tag_after [1; 0]%nat two_records 0 = Some (VInt 1)) as H1
    by vm_refl.
  split_and!; [done..|]. intros Heq.
  unfold tag_after in H0, H1. rewrite Heq in H0. congruence.
Qed.

(** C7, as the code has it.  On at least two records built by
    [map_list_to_json], with distinct image names, and for every permutation
    drawn by the generator, the split succeeds with test fraction 0.2; the
    test part has [ceil(n / 5)] records (within one of [0.2 * n]); the
    train and test parts together are the input records, each exactly once,
    changed in nothing but the flag; no image name occurs twice; every test
    record carries [train_set = 0] and every train record [train_set = 1]. *)
Theorem split_records_postcondition (permutation : list nat)
    (records : heap) :
  permutation ≡ₚ seq 0 (length records) →
  Forall built records →
  NoDup (image_names records) →
  (2 ≤ length records)%nat →
  ∃ h train test,
    split_records permutation records = Ok (h, (train, test))
    ∧ length (contents h test) = n_test_of (length records)
    ∧ (length records ≤ 5 * length (contents h test) ≤ length records + 4)%nat
    ∧ untagged <$> (contents h train ++ contents h test)
        ≡ₚ untagged <$> records
    ∧ image_names (contents h train ++ contents h test)
        ≡ₚ image_names records
    ∧ NoDup (image_names (contents h train ++ contents h test))
    ∧ Forall (tagged 0) (contents h test)
    ∧ Forall (tagged 1) (contents h train).
Proof.
  intros Hp Hb Hnd Hn.
  pose proof (built_named records Hb) as Hsome.
  set (nt := n_test_of (length records)).
  set (h := modify_all (take nt permutation) records).
  exists h, (drop nt permutation), (take nt permutation).
  pose proof (permutation_bounds _ _ Hp) as Hlt.
  assert (length h = length records) as Hlen by apply modify_all_length.
  assert (length permutation = length records) as Hplen
    by by rewrite Hp, length_seq.
  pose proof (n_test_of_bounds (length records)) as Hnt. fold nt in Hnt.
  assert (length (contents h (take nt permutation)) = nt) as Htest.
  { rewrite contents_length, length_take; [lia|].
    rewrite Hlen. by apply Forall_take. }
  assert (contents h (drop nt permutation) ++ contents h (take nt permutation)
          ≡ₚ h) as Hall.
  { unfold contents. rewrite <- omap_app.
    rewrite Permutation_app_comm, take_drop, Hp, <- Hlen.
    fold (contents h (seq 0 (length h))). by rewrite contents_seq. }
  assert (NoDup permutation) as Hpnd by (rewrite Hp; apply NoDup_seq).
  split_and!.
  - by apply split_records_ok.
  - done.
  - rewrite Htest. lia.
  - rewrite Htest. lia.
  - rewrite Hall. unfold h. by rewrite untagged_modify_all.
  - unfold image_names at 1. rewrite Hall. fold (image_names h).
    unfold h. by rewrite image_names_modify_all.
  - unfold image_names at 1. rewrite Hall. fold (image_names h).
    unfold h. by rewrite image_names_modify_all.
  - apply contents_Forall. intros r d Hr Hd. unfold h in Hd.
    rewrite modify_all_lookup, decide_True in Hd by done.
    destruct (records !! r) as [d0|]; simplify_eq/=.
    unfold tagged, modify_value. apply lookup_insert_eq.
  - apply contents_Forall. intros r d Hr Hd. unfold h in Hd.
    rewrite modify_all_lookup, decide_False in Hd.
    + destruct (records !! r) as [d0|] eqn:Hd0; simplify_eq/=.
      pose proof (Forall_lookup_1 _ _ _ _ Hb Hd0) as Hbd.
      destruct (built_record _ Hbd) as (name & n & faces & ->).
      unfold tagged, record_of.
      do 3 (rewrite lookup_insert_ne by done). apply lookup_insert_eq.
    + intros Hr'. rewrite <- (take_drop nt permutation) in Hpnd.
      apply NoDup_app in Hpnd as (_ & Hdisj & _). by apply (Hdisj r).
Qed.

Lemma split_records_postcondition_witness :
  ∃ h train test,
    split_records [3; 0; 4; 1; 2]%nat five_records = Ok (h, (train, test))
    ∧ length (contents h test) = n_test_of (length five_records)
    ∧ (length five_records ≤ 5 * length (contents h test)
       ≤ length five_records + 4)%nat
    ∧ untagged <$> (contents h train ++ contents h test)
        ≡ₚ untagged <$> five_records
    ∧ image_names (contents h train ++ contents h test)
        ≡ₚ image_names five_records
    ∧ NoDup (image_names (contents h train ++ contents h test))
    ∧ Forall (tagged 0) (contents h test)
    ∧ Forall (tagged 1) (contents h train).
Proof.
  apply (split_records_postcondition [3; 0; 4; 1; 2]%nat five_records).
  - by apply (bool_decide_unpack _).
  - repeat constructor; by eexists [_; "1"].
  - by apply (bool_decide_unpack _).
  - simpl. lia.
Defined.

(** Fewer than two records are never split. *)
Lemma split_records_too_few (permutation : list nat) (records : heap) :
  (length records < 2)%nat →
  split_records permutation records = Raise ValueError.
Proof.
  intros Hn. unfold split_records, split_and_tag.
  rewrite train_test_split_small; [done|]. by rewrite length_seq.
Qed.

(** C7, counterexample: a single record is not split at all; the call
    raises [ValueError] because the train part would be empty.  The same
    holds for the empty list. *)
Lemma split_records_single_record :
  split_records [0]%nat [sample_entry] = Raise ValueError
  ∧ split_records [] [] = Raise ValueError.
Proof. split; reflexivity. Qed.

(** ** [DynamoDBTable] against any store *)

Section ClientProperties.
Context {St : Type} `{DynResource St}.

(** [exists] on a missing table answers [False] and binds nothing: the
    state the specification calls Checked-Absent. *)
Lemma exists_absent (table_name : string) (self : DynamoDBTable)
    (w : world St) (message : string) (s' : St) :
  table_load table_name (store w)
  = (Raise (ClientError "ResourceNotFoundException" message), s') →
  exists_ table_name self w = (Ok false, self, set_store w s').
Proof. intros Hload. unfold exists_. by rewrite Hload. Qed.

(** C9. When the store answers the creation request with a client error,
    [create_table] raises that error, logs it, and leaves [self.table] as
    it was: unbound if it was unbound. *)
Theorem create_table_rejected (table_name : string) (self : DynamoDBTable)
    (w : world St) (code message : string) (s' : St) :
  table self = None →
  resource_create_table (table_schema_args table_name) (store w)
  = (Raise (ClientError code message), s') →
  (create_table table_name self w).1.1 = Raise (ClientError code message)
  ∧ (create_table table_name self w).1.2 = self
  ∧ table (create_table table_name self w).1.2 = None
  ∧ store (create_table table_name self w).2 = s'.
Proof.
  intros Hnone Hcreate. unfold create_table. by rewrite Hcreate.
Qed.

(** Not covered by C9: when the store accepts the creation and the wait
    for the table raises a client error, the call fails with [self.table]
    already bound to the new table. *)
Lemma create_table_wait_fails (table_name : string) (self : DynamoDBTable)
    (w : world St) (t code message : string) (s1 s2 : St) :
  resource_create_table (table_schema_args table_name) (store w)
  = (Ok t, s1) →
  table_wait_until_exists t s1 = (Raise (ClientError code message), s2) →
  (create_table table_name self w).1.1 = Raise (ClientError code message)
  ∧ table (create_table table_name self w).1.2 = Some t.
Proof.
  intros Hcreate Hwait. unfold create_table. by rewrite Hcreate, Hwait.
Qed.

(** C10. When the store answers the delete call with a client error,
    [delete_table] raises that error and [self.table] stays bound to the
    same table; [self.table] becomes [None] exactly when the call
    returns normally. *)
Theorem delete_table_atomic (self : DynamoDBTable) (w : world St)
    (t : string) :
  table self = Some t →
  (∀ code message s',
     table_delete t (store w) = (Raise (ClientError code message), s') →
     (delete_table self w).1.1 = Raise (ClientError code message)
     ∧ (delete_table self w).1.2 = self)
  ∧ ((delete_table self w).1.1 = Ok ()
     ↔ table (delete_table self w).1.2 = None)
  ∧ ((delete_table self w).1.1 ≠ Ok ()
     → table (delete_table self w).1.2 = Some t).
Proof.
  intros Ht. unfold delete_table. rewrite Ht. split_and!.
  - intros code message s' Hdel. by rewrite Hdel.
  - destruct (table_delete t (store w)) as [[[]|[]] s']; simpl;
      rewrite ?Ht; split; intros; done.
  - destruct (table_delete t (store w)) as [[[]|[]] s']; simpl;
      rewrite ?Ht; intros; done.
Qed.

(** C8. When the store answers [get_item] without an item, [get_entry]
    raises [KeyError] (the lookup [response["Item"]] fails): the caller
    gets an exception it can handle, nothing is logged, and the client
    stays bound to its table. *)
Theorem get_entry_absent (image_name is_train : value)
    (self : DynamoDBTable) (w : world St) (t : string) (s' : St) :
  table self = Some t →
  table_get_item t
    (<["image_name" := image_name]> (<["is_train" := is_train]> ∅))
    (store w)
  = (Ok {| Item := None |}, s') →
  get_entry image_name is_train self w
  = (Raise (KeyError "Item"), self, set_store w s')
  ∧ log (get_entry image_name is_train self w).2 = log w.
Proof.
  intros Ht Hget. unfold get_entry. by rewrite Ht, Hget.
Qed.
End ClientProperties.

Lemma create_table_rejected_witness :
  (create_table "faces" __init__ {| store := is_train_store; log := [] |}).1.1
  = Raise (ClientError "ResourceInUseException" "Table already exists")
  ∧ (create_table "faces" __init__
       {| store := is_train_store; log := [] |}).1.2 = __init__
  ∧ table (create_table "faces" __init__
             {| store := is_train_store; log := [] |}).1.2 = None
  ∧ store (create_table "faces" __init__
             {| store := is_train_store; log := [] |}).2 = is_train_store.
Proof.
  apply (create_table_rejected "faces" __init__
           {| store := is_train_store; log := [] |}).
  - reflexivity.
  - reflexivity.
Defined.

Lemma delete_table_atomic_witness :
  (delete_table faces_client empty_world).1.1
  = Raise (ClientError "ResourceNotFoundException"
             "Requested resource not found")
  ∧ (delete_table faces_client empty_world).1.2 = faces_client.
Proof.
  destruct (delete_table_atomic faces_client empty_world "faces" eq_refl)
    as (Hraise & _).
  apply (Hraise _ _ ∅). reflexivity.
Defined.

Lemma get_entry_absent_witness :
  get_entry (VStr "missing.jpg") (VInt 1) faces_client
    {| store := is_train_store; log := [] |}
  = (Raise (KeyError "Item"), faces_client,
     set_store {| store := is_train_store; log := [] |} is_train_store)
  ∧ log (get_entry (VStr "missing.jpg") (VInt 1) faces_client
           {| store := is_train_store; log := [] |}).2 = [].
Proof.
  apply (get_entry_absent (VStr "missing.jpg") (VInt 1) faces_client
           {| store := is_train_store; log := [] |} "faces" is_train_store).
  - reflexivity.
  - vm_compute. reflexivity.
Defined.

(** ** [write_batch] then [get_entry] on the in-memory store *)

Lemma foldl_put_one_schema (items : list item) : ∀ td,
  td_key_schema (foldl put_one td items) = td_key_schema td
  ∧ td_attributes (foldl put_one td items) = td_attributes td.
Proof.
  induction items as [|it items IH]; intros td; [done|].
  cbn [foldl]. destruct (IH (put_one td it)) as [-> ->]. done.
Qed.

Lemma mem_batch_write_schema (name : string) (items : list item)
    (s : mem_store) (t : string) :
  schema_of (mem_batch_write name items s).2 t = schema_of s t.
Proof.
  unfold mem_batch_write.
  destruct (s !! name) as [td|] eqn:Htd; [|done].
  destruct (negb _); [done|]. case_bool_decide; [|done].
  cbn [snd]. unfold schema_of.
  destruct (decide (name = t)) as [->|Hne].
  - rewrite lookup_insert_eq, Htd. cbn.
    by destruct (foldl_put_one_schema items td) as [-> ->].
  - by rewrite lookup_insert_ne.
Qed.

Lemma mem_writer_put_item_schema (name : string) (buffer : list item)
    (it : item) (s : mem_store) (t : string) :
  schema_of (mem_writer_put_item name buffer it s).2 t = schema_of s t.
Proof.
  unfold mem_writer_put_item. case_match; [|done].
  pose proof (mem_batch_write_schema name
                (take flush_amount (buffer ++ [it])) s t) as Hs.
  by destruct (mem_batch_write _ _ _) as [[?|?] ?].
Qed.

Lemma mem_flush_all_schema (fuel : nat) (name : string) (t : string) :
  ∀ (buffer : list item) (s : mem_store),
  schema_of (mem_flush_all fuel name buffer s).2 t = schema_of s t.
Proof.
  induction fuel as [|fuel IH]; intros [|it buffer] s; try done.
  cbn [mem_flush_all].
  pose proof (mem_batch_write_schema name
                (take flush_amount (it :: buffer)) s t) as Hs.
  destruct (mem_batch_write _ _ _) as [[?|?] s1]; [|done].
  by rewrite IH.
Qed.

Lemma put_entries_schema (name : string) (t : string)
    (entries : list item) : ∀ (buffer : list item) (s : mem_store),
  schema_of (put_entries name buffer entries s).2 t = schema_of s t.
Proof.
  induction entries as [|entry entries IH]; intros buffer s.
  - apply mem_flush_all_schema.
  - cbn [put_entries].
    pose proof (mem_writer_put_item_schema name buffer entry s t) as Hs.
    change (writer_put_item name buffer entry s)
      with (mem_writer_put_item name buffer entry s).
    destruct (mem_writer_put_item _ _ _ _) as [[?|?] s1]; [|done].
    by rewrite IH.
Qed.

(** [write_batch] leaves the key schema of every table as it is. *)
Lemma write_batch_schema (entries : list item) (self : DynamoDBTable)
    (w : world mem_store) (t : string) :
  schema_of (store (write_batch entries self w).2) t = schema_of (store w) t.
Proof.
  unfold write_batch. destruct (table self) as [name|]; [|done].
  pose proof (put_entries_schema name t entries [] (store w)) as Hs.
  destruct (put_entries _ _ _ _) as [[?|[]] s1]; done.
Qed.

(** A table keyed the way [create_table] declares rejects the key that
    [get_entry] sends: it has no attribute [train_set]. *)
Lemma mem_get_item_is_train (s : mem_store) (t : string)
    (image_name is_train : value) :
  schema_of s t = Some (KeySchema (table_schema_args t),
                        AttributeDefinitions (table_schema_args t)) →
  (mem_get_item t
     (<["image_name" := image_name]> (<["is_train" := is_train]> ∅)) s).1
  = validation_error "The provided key element does not match the schema".
Proof.
  unfold schema_of, mem_get_item. intros Hs.
  destruct (s !! t) as [[ks attrs items]|]; [|done].
  cbn in Hs. simplify_eq.
  assert (valid_key
            {| td_key_schema := [("train_set", HASH); ("image_name", RANGE)];
               td_attributes := [("train_set", AttrN); ("image_name", AttrS)];
               td_items := items |}
            (<["image_name" := image_name]> (<["is_train" := is_train]> ∅))
          = false) as ->; [|done].
  unfold valid_key.
  change (key_attributes _)
    with [("train_set", AttrN); ("image_name", AttrS)].
  cbn [forallb]. do 2 (rewrite lookup_insert_ne by done).
  rewrite lookup_empty. by rewrite andb_false_r.
Qed.

Lemma create_table_empty_world (table_name : string) :
  create_table table_name __init__ empty_world
  = (Ok table_name, {| table := Some table_name |},
     {| store :=
          {[ table_name :=
               {| td_key_schema := KeySchema (table_schema_args table_name);
                  td_attributes :=
                    AttributeDefinitions (table_schema_args table_name);
                  td_items := [] |} ]};
        log := [] |}).
Proof.
  unfold create_table, resource_create_table, table_wait_until_exists.
  cbn [mem_resource]. unfold mem_create_table, empty_world. cbn [store].
  rewrite lookup_empty.
  cbn [TableName KeySchema AttributeDefinitions table_schema_args].
  change (length (key_attributes _) =? _)%nat with true. cbv iota.
  unfold mem_wait_until_exists, mem_load.
  rewrite lookup_insert_eq. unfold set_store. cbn [log].
  by rewrite insert_empty.
Qed.

(** C1, what the code does.  After [create_table] and [write_batch] of any
    entries, [get_entry] does not return an item for any image name and
    partition value: the store rejects the key, whose partition attribute
    is named [is_train] while the table was created with [train_set]. *)
Theorem get_entry_after_write_batch_rejected (table_name : string)
    (entries : list item) (image_name is_train : value) :
  (create_table table_name __init__ empty_world).1.1 = Ok table_name
  ∧ (get_entry image_name is_train
       (client_after_write table_name entries).1
       (client_after_write table_name entries).2).1.1
    = Raise (ClientError "ValidationException"
               "The provided key element does not match the schema").
Proof.
  unfold client_after_write. rewrite create_table_empty_world.
  split; [done|]. cbv beta iota.
  match goal with |- context [write_batch entries ?dt ?w] =>
    pose proof (write_batch_schema entries dt w table_name) as Hs;
    assert ((write_batch entries dt w).1.2 = dt) as Hdt
  end.
  { unfold write_batch. cbn [table].
    by destruct (put_entries _ _ _ _) as [[?|[]] s1]. }
  destruct (write_batch entries _ _) as [[r dt] w2]. cbn in Hdt, Hs.
  subst dt. unfold get_entry. cbn [fst snd table].
  unfold schema_of in Hs at 2. rewrite lookup_singleton_eq in Hs. cbn in Hs.
  pose proof (mem_get_item_is_train (store w2) table_name image_name is_train
                Hs) as Hget.
  change (table_get_item table_name ?k (store w2))
    with (mem_get_item table_name k (store w2)).
  destruct (mem_get_item _ _ _) as [r' s']. cbn [fst] in Hget.
  by subst r'.
Qed.

(** ** The store returns what was written, under the key of the schema *)

Lemma item_key_schema (td td' : table_data) (it : item) :
  td_key_schema td' = td_key_schema td → item_key td' it = item_key td it.
Proof. unfold item_key. by intros ->. Qed.

Lemma valid_key_schema (td td' : table_data) (k : item) :
  td_key_schema td' = td_key_schema td →
  td_attributes td' = td_attributes td →
  valid_key td' k = valid_key td k.
Proof. unfold valid_key, key_attributes. by intros -> ->. Qed.

Lemma valid_item_schema (td td' : table_data) (it : item) :
  td_key_schema td' = td_key_schema td →
  td_attributes td' = td_attributes td →
  valid_item td' it = valid_item td it.
Proof.
  unfold valid_item, valid_key, key_attributes, item_key. by intros -> ->.
Qed.

Lemma list_find_put {A} (P Q : A → Prop) `{!∀ x, Decision (P x)}
    `{!∀ x, Decision (Q x)} (it : A) (l : list A) :
  ¬ P it → (∀ x, P x → Q x) →
  snd <$> list_find P (filter Q l ++ [it]) = snd <$> list_find P l.
Proof.
  intros Hit HPQ. induction l as [|x l IH].
  - simpl. by rewrite decide_False.
  - rewrite filter_cons. cbn [list_find]. destruct (decide (P x)) as [HP|HP].
    + rewrite decide_True by auto. simpl. by rewrite decide_True.
    + rewrite <- option_fmap_compose.
      destruct (decide (Q x)).
      * simpl. rewrite decide_False by done.
        rewrite <- option_fmap_compose. exact IH.
      * exact IH.
Qed.

Lemma stored_put_one_same (td : table_data) (it : item) :
  stored (put_one td it) (item_key td it) = Some it.
Proof.
  unfold stored, put_one. cbn [td_items].
  change (item_key {| td_key_schema := _; td_attributes := _; td_items := _ |})
    with (item_key td).
  rewrite list_find_app_r.
  - simpl. by rewrite decide_True.
  - apply list_find_None, Forall_forall. intros x Hx.
    by apply list_elem_of_filter in Hx as [Hx _].
Qed.

Lemma stored_put_one_other (td : table_data) (it k : item) :
  item_key td it ≠ k → stored (put_one td it) k = stored td k.
Proof.
  intros Hne. unfold stored, put_one. cbn [td_items].
  change (item_key {| td_key_schema := _; td_attributes := _; td_items := _ |})
    with (item_key td).
  apply (list_find_put (λ x, item_key td x = k)
           (λ x, item_key td x ≠ item_key td it)); [done|].
  intros x <-. done.
Qed.

Lemma stored_foldl_other (l : list item) : ∀ (td : table_data) (k : item),
  Forall (λ x, item_key td x ≠ k) l →
  stored (foldl put_one td l) k = stored td k.
Proof.
  induction l as [|a l IH]; intros td k Hl; [done|].
  apply Forall_cons in Hl as [Ha Hl]. cbn [foldl].
  rewrite IH; [by apply stored_put_one_other|done].
Qed.

Lemma stored_foldl_in (l : list item) : ∀ (td : table_data) (e : item),
  NoDup (item_key td <$> l) → e ∈ l →
  stored (foldl put_one td l) (item_key td e) = Some e.
Proof.
  induction l as [|a l IH]; intros td e Hnd He; [by inversion He|].
  rewrite fmap_cons in Hnd. apply NoDup_cons in Hnd as [Ha Hnd].
  cbn [foldl]. apply elem_of_cons in He as [->|He].
  - rewrite stored_foldl_other; [apply stored_put_one_same|].
    apply Forall_forall. intros x Hx Heq. apply Ha.
    apply list_elem_of_fmap. by exists x.
  - by apply (IH (put_one td a)).
Qed.

Lemma foldl_put_one_item_key (items : list item) (td : table_data)
    (it : item) :
  item_key (foldl put_one td items) it = item_key td it.
Proof. apply item_key_schema, foldl_put_one_schema. Qed.

Lemma foldl_put_one_valid_item (items : list item) (td : table_data)
    (it : item) :
  valid_item (foldl put_one td items) it = valid_item td it.
Proof. apply valid_item_schema; apply foldl_put_one_schema. Qed.

Lemma mem_batch_write_ok (name : string) (items : list item) (s : mem_store)
    (td : table_data) :
  s !! name = Some td →
  forallb (valid_item td) items = true →
  NoDup (item_key td <$> items) →
  mem_batch_write name items s
  = (Ok (), <[name := foldl put_one td items]> s).
Proof.
  intros Htd Hvalid Hnd. unfold mem_batch_write.
  by rewrite Htd, Hvalid, bool_decide_eq_true_2.
Qed.

(** The batch writer sends its chunks one after the other; when every entry
    fits the schema and no two have the same key, the table ends up as if
    the entries had been put one by one. *)
Lemma put_entries_ok (t : string) (entries : list item) :
  ∀ (buffer : list item) (s : mem_store) (td : table_data),
  s !! t = Some td →
  (length buffer < flush_amount)%nat →
  forallb (valid_item td) (buffer ++ entries) = true →
  NoDup (item_key td <$> (buffer ++ entries)) →
  put_entries t buffer entries s
  = (Ok (), <[t := foldl put_one td (buffer ++ entries)]> s).
Proof.
  induction entries as [|entry entries IH];
    intros buffer s td Htd Hlen Hvalid Hnd.
  - rewrite app_nil_r in *. cbn [put_entries].
    change (writer_exit t buffer s) with (mem_writer_exit t buffer s).
    unfold mem_writer_exit. destruct buffer as [|b buffer].
    + simpl. by rewrite insert_id.
    + cbn [length mem_flush_all].
      rewrite take_ge, drop_ge by (simpl in *; lia).
      rewrite (mem_batch_write_ok _ _ _ td) by done.
      by destruct (length buffer).
  - cbn [put_entries].
    change (writer_put_item t buffer entry s)
      with (mem_writer_put_item t buffer entry s).
    unfold mem_writer_put_item.
    replace (buffer ++ entry :: entries)
      with ((buffer ++ [entry]) ++ entries) in *
      by (by rewrite <- app_assoc).
    destruct (flush_amount <=? length (buffer ++ [entry]))%nat eqn:Hfull.
    + apply Nat.leb_le in Hfull.
      assert (length (buffer ++ [entry]) = flush_amount) as Hexact
        by (rewrite length_app in *; simpl in *; lia).
      rewrite take_ge, drop_ge by lia.
      rewrite forallb_app in Hvalid. apply andb_true_iff in Hvalid as [Hv1 Hv2].
      rewrite fmap_app in Hnd. apply NoDup_app in Hnd as (Hn1 & Hdisj & Hn2).
      rewrite (mem_batch_write_ok _ _ _ td) by done.
      rewrite (IH [] _ (foldl put_one td (buffer ++ [entry]))).
      * rewrite insert_insert_eq, app_nil_l.
        by rewrite (foldl_app _ (buffer ++ [entry])).
      * apply lookup_insert_eq.
      * unfold flush_amount. simpl. lia.
      * simpl. apply forallb_forall. intros it Hit.
        rewrite foldl_put_one_valid_item.
        by apply (proj1 (forallb_forall _ _) Hv2).
      * simpl. erewrite list_fmap_ext; [exact Hn2|].
        intros i it _. apply foldl_put_one_item_key.
    + apply Nat.leb_gt in Hfull. by apply IH.
Qed.

Lemma created_table_item_key (items : list item) (e : item) (n ts : value) :
  e !! "image_name" = Some n → e !! "train_set" = Some ts →
  item_key (created_table items) e = schema_key n ts.
Proof.
  intros Hn Ht. apply map_eq. intros k. unfold item_key, schema_key.
  destruct (decide (k = "image_name")) as [->|Hk1].
  { rewrite lookup_insert_eq. apply map_lookup_filter_Some_2; [done|].
    simpl. by right; left. }
  destruct (decide (k = "train_set")) as [->|Hk2].
  { rewrite lookup_insert_ne, lookup_insert_eq by done.
    apply map_lookup_filter_Some_2; [done|]. simpl. by left. }
  rewrite !lookup_insert_ne, lookup_empty by done.
  apply map_lookup_filter_None_2. right. intros v _. simpl.
  intros Hin. apply elem_of_cons in Hin as [?|Hin]; [done|].
  apply elem_of_cons in Hin as [?|Hin]; [done|]. by inversion Hin.
Qed.

Lemma created_table_valid_key (items : list item) (n : string) (t : Z) :
  valid_key (created_table items) (schema_key (VStr n) (VInt t)) = true.
Proof.
  unfold valid_key.
  change (key_attributes _) with [("train_set", AttrN); ("image_name", AttrS)].
  cbn [forallb created_table td_key_schema length]. unfold schema_key.
  rewrite lookup_insert_ne, !lookup_insert_eq by done.
  rewrite map_size_insert_None
    by (rewrite lookup_insert_ne by done; apply lookup_empty).
  rewrite map_size_insert_None by apply lookup_empty.
  by rewrite map_size_empty.
Qed.

Lemma created_table_valid_item (items : list item) (e : item) :
  well_keyed e → valid_item (created_table items) e = true.
Proof.
  intros (n & t & Hn & Ht). unfold valid_item.
  rewrite (created_table_item_key items e _ _ Hn Ht).
  apply created_table_valid_key.
Qed.

(** X21. The round trip the store offers: once [create_table] and [write_batch]
    have run on entries with pairwise distinct keys, [get_item] with the
    key attributes of the schema, [image_name] and [train_set], returns the
    written entry with all its fields.  This is the lookup [get_entry]
    misses by naming the partition attribute [is_train]. *)
Lemma write_batch_get_item_roundtrip (table_name : string)
    (entries : list item) (e : item) (n : string) (t : Z) :
  Forall well_keyed entries →
  NoDup (item_key (created_table []) <$> entries) →
  e ∈ entries →
  e !! "image_name" = Some (VStr n) →
  e !! "train_set" = Some (VInt t) →
  table (client_after_write table_name entries).1 = Some table_name
  ∧ (mem_get_item table_name (schema_key (VStr n) (VInt t))
       (store (client_after_write table_name entries).2)).1
    = Ok {| Item := Some e |}.
Proof.
  intros Hkeyed Hnd He Hn Ht.
  unfold client_after_write. rewrite create_table_empty_world.
  cbv beta iota. unfold write_batch. cbn [table store].
  change {| td_key_schema := KeySchema (table_schema_args table_name);
            td_attributes := AttributeDefinitions (table_schema_args table_name);
            td_items := [] |} with (created_table []).
  rewrite (put_entries_ok table_name entries [] _ (created_table [])).
  - unfold set_store. cbn [fst snd table store]. split; [done|].
    unfold mem_get_item. rewrite lookup_insert_eq, app_nil_l.
    set (td := foldl put_one (created_table []) entries).
    assert (valid_key td (schema_key (VStr n) (VInt t)) = true) as ->.
    { rewrite <- (created_table_valid_key [] n t).
      apply valid_key_schema; apply foldl_put_one_schema. }
    cbn [fst]. do 2 f_equal.
    rewrite <- (created_table_item_key [] e _ _ Hn Ht).
    exact (stored_foldl_in entries (created_table []) e Hnd He).
  - apply lookup_singleton_eq.
  - unfold flush_amount. simpl. lia.
  - simpl. apply forallb_forall. intros it Hit.
    apply created_table_valid_item.
    by apply (proj1 (Forall_forall _ _) Hkeyed), list_elem_of_In.
  - done.
Qed.

(** ** More on [split_list_on_element] *)

Lemma split_list_on_element_close input_list split_element :
  split_list_on_element input_list split_element
  = close_groups (fold_left (split_step split_element) input_list ([], [])).
Proof.
  unfold split_list_on_element, close_groups.
  by destruct (fold_left _ _ _) as [res [|l sub]].
Qed.

Lemma fold_left_snoc {A B} (f : A → B → A) (l : list B) (b : B) (a : A) :
  fold_left f (l ++ [b]) a = f (fold_left f l a) b.
Proof. by rewrite fold_left_app. Qed.

(** The open group is empty only before the first line is read. *)
Lemma split_fold_open split_element input :
  ∀ res sub, (sub = [] → res = []) →
  (fold_left (split_step split_element) input (res, sub)).2 = [] →
  (fold_left (split_step split_element) input (res, sub)).1 = [].
Proof.
  induction input as [|item input IH] using rev_ind; intros res sub Hst;
    [exact Hst|].
  rewrite fold_left_snoc. specialize (IH res sub Hst).
  destruct (fold_left _ input _) as [res1 sub1]. unfold split_step.
  destruct (0 <? find item split_element); destruct sub1; simpl;
    intros Hnil; try done; by destruct sub1.
Qed.

(** Reading the lines of one headed group closes the group that was open
    and opens this one. *)
Lemma split_fold_headed_group split_element g res sub :
  headed_group split_element g →
  fold_left (split_step split_element) g (res, sub)
  = (close_groups (res, sub), g).
Proof.
  intros (h & t & -> & Hh & Ht). cbn [fold_left].
  assert (split_step split_element (res, sub) h
          = (close_groups (res, sub), [h])) as ->.
  { unfold split_step, close_groups, is_header in *.
    apply Z.ltb_lt in Hh. rewrite Hh. by destruct sub. }
  generalize (close_groups (res, sub)). intros res'.
  change (h :: t) with ([h] ++ t). generalize [h] as pre.
  induction Ht as [|x t Hx _ IH]; intros pre.
  - by rewrite app_nil_r.
  - cbn [fold_left]. unfold split_step at 2.
    unfold is_header in Hx. apply Z.ltb_nlt in Hx. rewrite Hx.
    rewrite IH. by rewrite <- app_assoc.
Qed.

Lemma close_groups_open (res : list (list string)) (g : list string) :
  g ≠ [] → close_groups (res, g) = res ++ [g].
Proof. by destruct g. Qed.

Lemma split_fold_headed_groups split_element groups : ∀ res sub,
  Forall (headed_group split_element) groups →
  close_groups
    (fold_left (split_step split_element) (concat groups) (res, sub))
  = close_groups (res, sub) ++ groups.
Proof.
  induction groups as [|g groups IH] using rev_ind; intros res sub Hg.
  { simpl. by rewrite app_nil_r. }
  apply Forall_app in Hg as [Hgs Hg]. apply Forall_cons in Hg as [Hg _].
  rewrite concat_app, fold_left_app. simpl. rewrite app_nil_r.
  specialize (IH res sub Hgs).
  destruct (fold_left _ (concat groups) _) as [res1 sub1].
  rewrite (split_fold_headed_group _ g res1 sub1 Hg), IH.
  destruct Hg as (h & t & -> & _). by rewrite close_groups_open, app_assoc.
Qed.

Lemma split_fold_no_header split_element pre : ∀ res sub,
  Forall (λ x, ¬ is_header split_element x) pre →
  fold_left (split_step split_element) pre (res, sub) = (res, sub ++ pre).
Proof.
  induction pre as [|x pre IH]; intros res sub Hpre.
  - by rewrite app_nil_r.
  - apply Forall_cons in Hpre as [Hx Hpre]. cbn [fold_left].
    unfold split_step at 2. unfold is_header in Hx.
    apply Z.ltb_nlt in Hx. rewrite Hx.
    rewrite IH by done. by rewrite <- app_assoc.
Qed.

(** Every list of lines is a run of lines without header followed by
    headed groups. *)
Lemma lines_decompose split_element (input : list string) :
  ∃ pre groups,
    input = pre ++ concat groups
    ∧ Forall (λ x, ¬ is_header split_element x) pre
    ∧ Forall (headed_group split_element) groups.
Proof.
  induction input as [|x input (pre & groups & -> & Hpre & Hgroups)].
  - by exists [], [].
  - destruct (decide (is_header split_element x)) as [Hx|Hx].
    + exists [], ((x :: pre) :: groups). split_and!; [done|done|].
      constructor; [|done]. by exists x, pre.
    + exists (x :: pre), groups. split_and!; [done| |done].
      by constructor.
Qed.

(** The result in terms of that decomposition. *)
Lemma split_list_on_element_decomposed split_element pre groups :
  Forall (λ x, ¬ is_header split_element x) pre →
  Forall (headed_group split_element) groups →
  split_list_on_element (pre ++ concat groups) split_element
  = close_groups ([], pre) ++ groups.
Proof.
  intros Hpre Hgroups. rewrite split_list_on_element_close, fold_left_app.
  rewrite split_fold_no_header by done.
  by rewrite split_fold_headed_groups.
Qed.

(** X1. Splitting undoes concatenation: when every group is a header line
    followed by lines that are no headers, [split_list_on_element] applied
    to the groups laid end to end returns the groups. *)
Theorem split_list_on_element_concat split_element
    (groups : list (list string)) :
  Forall (headed_group split_element) groups →
  split_list_on_element (concat groups) split_element = groups.
Proof.
  intros Hgroups.
  by rewrite <- (app_nil_l (concat groups)),
    split_list_on_element_decomposed.
Qed.

Lemma split_list_on_element_concat_witness :
  split_list_on_element
    (concat [["2002/a"; "1"; "e1"]; ["2002/b"]; ["2002/c"; "2"; "e2"; "e3"]])
    "/"
  = [["2002/a"; "1"; "e1"]; ["2002/b"]; ["2002/c"; "2"; "e2"; "e3"]].
Proof.
  apply split_list_on_element_concat.
  repeat constructor; eexists _, _; split_and!; try reflexivity;
    repeat constructor; compute; congruence.
Defined.

(** X2. In the result, every group but the first starts with a header
    line, and no group has a header line after its first line. *)
Theorem split_list_on_element_headers (input_list : list string)
    (split_element : string) :
  Forall (headed_group split_element)
    (tail (split_list_on_element input_list split_element))
  ∧ Forall (λ g, Forall (λ x, ¬ is_header split_element x) (tail g))
      (split_list_on_element input_list split_element).
Proof.
  destruct (lines_decompose split_element input_list)
    as (pre & groups & -> & Hpre & Hgroups).
  rewrite split_list_on_element_decomposed by done.
  assert (Forall (λ g, Forall (λ x, ¬ is_header split_element x) (tail g))
            groups) as Htails.
  { eapply Forall_impl; [exact Hgroups|].
    by intros g (h & t & -> & _ & Ht). }
  destruct pre as [|x pre]; simpl.
  - split; [|done]. destruct groups; [done|].
    by apply Forall_cons in Hgroups as [_ ?].
  - split; [done|]. constructor; [|done].
    by apply Forall_cons in Hpre as [_ ?].
Qed.

(** X3. The number of groups is the number of header lines, plus one when
    the first line is no header. *)
Theorem split_list_on_element_length (input_list : list string)
    (split_element : string) :
  length (split_list_on_element input_list split_element)
  = (length (filter (is_header split_element) input_list)
     + match input_list with
       | x :: _ => if decide (is_header split_element x) then 0 else 1
       | [] => 0
       end)%nat.
Proof.
  destruct (lines_decompose split_element input_list)
    as (pre & groups & -> & Hpre & Hgroups).
  rewrite split_list_on_element_decomposed by done.
  rewrite filter_app, !length_app.
  assert (filter (is_header split_element) pre = []) as ->.
  { clear -Hpre. induction Hpre as [|x pre Hx _ IH]; [done|].
    by rewrite filter_cons, decide_False. }
  assert (length (filter (is_header split_element) (concat groups))
          = length groups) as ->.
  { clear -Hgroups. induction Hgroups as [|g groups Hg _ IH]; [done|].
    destruct Hg as (h & t & -> & Hh & Ht). simpl.
    rewrite filter_cons, decide_True by done. rewrite filter_app.
    cbn [length]. rewrite length_app, IH. f_equal.
    assert (filter (is_header split_element) t = []) as ->; [|done].
    clear -Ht. induction Ht as [|x t Hx _ IH]; [done|].
    by rewrite filter_cons, decide_False. }
  destruct pre as [|x pre]; simpl.
  - destruct groups as [|g groups]; [done|].
    apply Forall_cons in Hgroups as [(h & t & -> & Hh & _) _]. simpl.
    rewrite decide_True by done. lia.
  - apply Forall_cons in Hpre as [Hx _]. rewrite decide_False by done. lia.
Qed.

(** ** From annotation lines to records *)

Lemma mapM_result_ok {A B} (f : A → result B) (l : list A) (k : list B) :
  Forall2 (λ x y, f x = Ok y) l k → mapM f l = Ok k.
Proof.
  induction 1 as [|x y l k Hxy _ IH]; [done|].
  by rewrite mapM_result_cons, Hxy, IH.
Qed.

Lemma well_formed_headed (a : annotation) :
  well_formed a → headed_group "/" (ann_lines a).
Proof.
  intros (Hname & Hcount & Hfaces & _).
  exists (ann_name a), (ann_count a :: ann_faces a).
  split_and!; [done|done|]. by constructor.
Qed.

Lemma well_formed_record (a : annotation) :
  well_formed a → map_list_to_json (ann_lines a) = Ok (ann_record a).
Proof.
  intros (_ & _ & _ & [n Hn]). unfold map_list_to_json, ann_lines, ann_record.
  cbn. unfold int. rewrite Hn. done.
Qed.

Lemma split_annotations (anns : list annotation) :
  Forall well_formed anns →
  split_list_on_element (concat (ann_lines <$> anns)) "/"
  = ann_lines <$> anns.
Proof.
  intros Hwf.
  rewrite <- (app_nil_l (concat _)), split_list_on_element_decomposed;
    [done|done|].
  apply Forall_fmap. eapply Forall_impl; [exact Hwf|].
  apply well_formed_headed.
Qed.

Lemma concat_fmap_fmap {A B} (f : A → B) (ls : list (list A)) :
  concat ((λ l : list A, f <$> l) <$> ls) = f <$> concat ls.
Proof.
  induction ls as [|l ls IH]; [done|].
  cbn. by rewrite IH, fmap_app.
Qed.

(** With at least one file, line 105 finds its variable bound. *)
Lemma build_records_files (files : list (list string)) :
  files ≠ [] →
  build_records files
  = (all_jsons ← mapM (mapM map_list_to_json)
       ((λ lines, split_list_on_element lines "/")
          <$> ((λ lines, str_strip <$> lines) <$> files));
     Ok (concat all_jsons)).
Proof. by destruct files. Qed.

(** X4. Files of well-formed annotations in ASCII text, at least one
    file, give one record per image, in the order of the files and of the
    images in them: the name is the header line, the count is the value of
    the count line and the faces are the remaining lines of the group. *)
Theorem build_records_well_formed (files : list (list string))
    (images : list (list annotation)) :
  files ≠ [] →
  Forall (Forall is_ascii) files →
  Forall2 (λ lines anns, str_strip <$> lines = concat (ann_lines <$> anns))
    files images →
  Forall (Forall well_formed) images →
  build_records files = Ok (ann_record <$> concat images).
Proof.
  intros Hne _ Hfiles Hwf. rewrite build_records_files by done.
  rewrite (mapM_result_ok _ _
             ((λ anns : list annotation, ann_record <$> anns) <$> images)).
  - rewrite bind_Ok. by rewrite concat_fmap_fmap.
  - rewrite <- list_fmap_compose. apply Forall2_fmap. clear Hne.
    induction Hfiles as [|lines anns files images Hlines _ IH];
      [constructor|].
    apply Forall_cons in Hwf as [Hanns Hwf].
    constructor; [|by apply IH]. simpl. rewrite Hlines.
    rewrite split_annotations by done.
    apply mapM_result_ok, Forall2_fmap, Forall2_same_length_lookup.
    split; [done|]. intros i a b Ha Hb. simplify_eq.
    apply well_formed_record. by eapply Forall_lookup_1.
Qed.

Lemma build_records_well_formed_witness :
  build_records sample_files = Ok (ann_record <$> concat sample_images).
Proof.
  apply build_records_well_formed.
  - done.
  - apply (bool_decide_unpack _). vm_compute. reflexivity.
  - repeat constructor.
  - repeat constructor; try (by eexists); try (compute; congruence).
Defined.

(** ** More on [do_batch_get] *)

Lemma backoff_trace_cons d k k' reqs :
  backoff_trace d (k :: k' :: reqs)
  = BatchGetItem k :: Sleep d
      :: backoff_trace (Z.min (d * 2) 32) (k' :: reqs).
Proof. reflexivity. Qed.

Lemma calls_of_backoff_trace (reqs : list (gmap string (list item))) :
  ∀ d k, calls_of (backoff_trace d (k :: reqs)) = k :: reqs.
Proof.
  induction reqs as [|k' reqs IH]; intros d k; [done|].
  rewrite backoff_trace_cons.
  change (calls_of (?a :: Sleep d :: ?l)) with (k :: calls_of l).
  by rewrite IH.
Qed.

Lemma sleeps_of_backoff_trace (reqs : list (gmap string (list item))) :
  ∀ d k, sleeps_of (backoff_trace d (k :: reqs)) = doubling d (length reqs).
Proof.
  induction reqs as [|k' reqs IH]; intros d k; [done|].
  rewrite backoff_trace_cons. cbn [length doubling].
  change (sleeps_of (?a :: Sleep d :: ?l)) with (d :: sleeps_of l).
  by rewrite IH.
Qed.

Lemma doubling_from_one (n : nat) :
  (n ≤ 4)%nat → doubling 1 n = take n [1; 2; 4; 8].
Proof. intros Hn. by do 5 (destruct n as [|n]; [done|]); lia. Qed.

Lemma collect_dom (responses : list (string * list item)) :
  ∀ retrieved acc : gmap string (list item),
  collect responses retrieved = Ok acc → dom acc = dom retrieved.
Proof.
  induction responses as [|[key items] rest IH]; intros retrieved acc Hc.
  - by simplify_eq/=.
  - cbn [collect] in Hc. destruct (retrieved !! key) as [got|] eqn:Hgot;
      [|done].
    apply IH in Hc. rewrite Hc, dom_insert_L.
    apply subseteq_union_1_L, singleton_subseteq_l, elem_of_dom. eauto.
Qed.

Lemma collect_key_error (responses : list (string * list item)) :
  ∀ retrieved : gmap string (list item),
  Exists (λ t, t ∉ dom retrieved) responses.*1 →
  ∃ t, collect responses retrieved = Raise (KeyError t)
       ∧ t ∈ responses.*1 ∧ t ∉ dom retrieved.
Proof.
  induction responses as [|[key items] rest IH]; intros retrieved Hex.
  - by inversion Hex.
  - cbn [collect]. destruct (retrieved !! key) as [got|] eqn:Hgot.
    + rewrite fmap_cons in Hex. apply Exists_cons in Hex as [Hex|Hex].
      { exfalso. apply Hex, elem_of_dom. eauto. }
      assert (dom (<[key := got ++ items]> retrieved) = dom retrieved)
        as Hdom.
      { rewrite dom_insert_L.
        apply subseteq_union_1_L, singleton_subseteq_l, elem_of_dom. eauto. }
      destruct (IH (<[key := got ++ items]> retrieved)) as (t & Ht & Hin & Hd).
      { by rewrite Hdom. }
      exists t. rewrite Hdom in Hd. split_and!; [done| |done].
      rewrite fmap_cons. by right.
    + exists key. split_and!; [done| |by apply not_elem_of_dom].
      rewrite fmap_cons. by left.
Qed.

Section BatchGetMore.
Context {St : Type}.
Variable batch_get_item :
  gmap string (list item) → St → result batch_get_response * St.

(** Whatever the store does, the loop leaves a trace of calls separated by
    doubling sleeps, with no more calls than tries are left. *)
Lemma do_batch_get_loop_trace (fuel : nat) :
  ∀ tries sleepy_time batch_keys retrieved s trace out,
  0 ≤ tries < max_tries →
  do_batch_get_loop batch_get_item fuel tries sleepy_time batch_keys
    retrieved s trace = Some out →
  ∃ reqs,
    out.2 = trace ++ backoff_trace sleepy_time (batch_keys :: reqs)
    ∧ (Z.of_nat (length reqs) < max_tries - tries).
Proof.
  unfold max_tries.
  induction fuel as [|fuel IH];
    intros tries sleepy_time batch_keys retrieved s trace out Htries Hout;
    [done|].
  cbn [do_batch_get_loop] in Hout. unfold max_tries in Hout.
  assert ((tries <? 5) = true) as Hlt by lia. rewrite Hlt in Hout.
  destruct (batch_get_item batch_keys s) as [[r|e] s1].
  2:{ simplify_eq. exists []. split; [done|simpl; lia]. }
  destruct (collect _ retrieved) as [retrieved1|e].
  2:{ simplify_eq. exists []. split; [done|simpl; lia]. }
  destruct (0 <? size (UnprocessedKeys r))%nat.
  2:{ simplify_eq. exists []. split; [done|simpl; lia]. }
  destruct (tries + 1 <? 5) eqn:Hnext.
  - apply IH in Hout as (reqs & -> & Hlen); [|lia].
    exists (UnprocessedKeys r :: reqs). split.
    + rewrite backoff_trace_cons. by rewrite <- !app_assoc.
    + cbn [length]. lia.
  - destruct fuel as [|fuel]; [done|]. cbn [do_batch_get_loop] in Hout.
    unfold max_tries in Hout.
    assert ((tries + 1 <? 5) = false) as Hge by lia. rewrite Hge in Hout.
    simplify_eq. exists []. split; [done|simpl; lia].
Qed.

(** X5. For every store and every request, [do_batch_get] ends after at
    least one and at most five calls; it sleeps between two calls and
    nowhere else, for 1, 2, 4 and 8 seconds in this order.  The first call
    asks for the keys given. *)
Theorem do_batch_get_bounded (batch_keys : gmap string (list item))
    (s : St) :
  ∃ r s' trace reqs,
    do_batch_get batch_get_item batch_keys s = Some (r, s', trace)
    ∧ trace = backoff_trace 1 (batch_keys :: reqs)
    ∧ calls_of trace = batch_keys :: reqs
    ∧ (length reqs ≤ 4)%nat
    ∧ sleeps_of trace = take (length reqs) [1; 2; 4; 8].
Proof.
  destruct (do_batch_get_total batch_get_item batch_keys s)
    as [[[r s'] trace] Hrun].
  assert (0 ≤ 0 < max_tries) as H0 by (unfold max_tries; lia).
  destruct (do_batch_get_loop_trace _ _ _ _ _ _ _ _ H0 Hrun)
    as (reqs & Htrace & Hlen).
  unfold max_tries in Hlen. cbn [snd] in Htrace.
  rewrite app_nil_l in Htrace.
  exists r, s', trace, reqs. subst trace. split_and!; [done|done| |lia|].
  - apply calls_of_backoff_trace.
  - rewrite sleeps_of_backoff_trace. apply doubling_from_one. lia.
Qed.

(** X6. Retries that end well: when the first [n] responses ([n] at most
    4) leave keys unprocessed and the next one leaves none, the function
    makes [n + 1] calls, sleeps for the first [n] of the delays 1, 2, 4, 8
    and returns what all the responses added to the accumulator. *)
Theorem do_batch_get_retries_then_done (n : nat)
    (batch_keys : gmap string (list item)) (s : St) :
  (n ≤ 4)%nat →
  length (responses_of batch_get_item (S n) batch_keys s) = S n →
  Forall has_unprocessed
    (take n (responses_of batch_get_item (S n) batch_keys s)) →
  (∀ r, last (responses_of batch_get_item (S n) batch_keys s) = Some r →
        ¬ has_unprocessed r) →
  Forall (names_requested batch_keys)
    (responses_of batch_get_item (S n) batch_keys s) →
  ∃ acc s' trace,
    do_batch_get batch_get_item batch_keys s = Some (Ok acc, s', trace)
    ∧ calls_of trace = requests_of batch_get_item (S n) batch_keys s
    ∧ length (calls_of trace) = S n
    ∧ sleeps_of trace = take n [1; 2; 4; 8]
    ∧ accumulate (responses_of batch_get_item (S n) batch_keys s)
        ((λ _, []) <$> batch_keys) = Ok acc.
Proof.
  intros Hn Hlen Hunp Hlast Hnames.
  destruct (accumulate_ok _ batch_keys ((λ _, []) <$> batch_keys)
              (dom_fmap_L _ _) Hnames) as (acc & Hacc & _).
  destruct (do_batch_get_loop_run batch_get_item n 6 0 1 batch_keys
              ((λ _, []) <$> batch_keys) s [] acc) as [s' Hs'];
    try done; try (unfold max_tries; lia).
  { by right. }
  pose proof (requests_of_length batch_get_item (S n) batch_keys s Hlen)
    as Hreq.
  exists acc, s',
    (backoff_trace 1 (requests_of batch_get_item (S n) batch_keys s)).
  destruct (requests_of batch_get_item (S n) batch_keys s) as [|k reqs];
    [done|].
  cbn [length] in Hreq. split_and!; [done| | | |done].
  - apply calls_of_backoff_trace.
  - rewrite calls_of_backoff_trace. cbn [length]. lia.
  - rewrite sleeps_of_backoff_trace.
    replace (length reqs) with n by lia. by apply doubling_from_one.
Qed.

Lemma call_after_S n batch_keys s :
  call_after batch_get_item (S n) batch_keys s
  = match batch_get_item batch_keys s with
    | (Ok response, s) =>
        call_after batch_get_item n (UnprocessedKeys response) s
    | (Raise e, s) => (Raise e, s)
    end.
Proof. reflexivity. Qed.

(** After [n] responses with unprocessed keys, a call that raises, or a
    response that [collect] rejects, ends the loop with that exception. *)
Lemma do_batch_get_loop_fail (n : nat) :
  ∀ fuel tries sleepy_time batch_keys retrieved s trace acc e s',
  (n < fuel)%nat →
  0 ≤ tries → tries + Z.of_nat n < max_tries →
  length (responses_of batch_get_item n batch_keys s) = n →
  Forall has_unprocessed (responses_of batch_get_item n batch_keys s) →
  accumulate (responses_of batch_get_item n batch_keys s) retrieved
    = Ok acc →
  (call_after batch_get_item n batch_keys s = (Raise e, s')
   ∨ ∃ r, call_after batch_get_item n batch_keys s = (Ok r, s')
          ∧ collect (default [] (Responses r)) acc = Raise e) →
  do_batch_get_loop batch_get_item fuel tries sleepy_time batch_keys
    retrieved s trace
  = Some (Raise e, s',
          trace ++ backoff_trace sleepy_time
                     (requests_of batch_get_item (S n) batch_keys s)).
Proof.
  unfold max_tries.
  induction n as [|n IH];
    intros fuel tries sleepy_time batch_keys retrieved s trace acc e s'
      Hfuel Htries Hmax Hlen Hunp Hacc Hfail;
    (destruct fuel as [|fuel]; [lia|]);
    cbn [do_batch_get_loop]; unfold max_tries;
    (assert ((tries <? 5) = true) as -> by lia).
  - cbn [call_after] in Hfail. cbn [accumulate responses_of] in Hacc.
    simplify_eq. rewrite requests_of_S.
    destruct Hfail as [Hfail|(r & Hfail & Hcollect)]; rewrite Hfail.
    + done.
    + by rewrite Hcollect.
  - rewrite responses_of_S in Hlen, Hunp, Hacc.
    rewrite call_after_S in Hfail. rewrite requests_of_S.
    destruct (batch_get_item batch_keys s) as [[r|e0] s1] eqn:Hcall;
      [|done].
    cbn [accumulate] in Hacc.
    destruct (collect _ retrieved) as [retrieved1|e0] eqn:Hc; [|done].
    rewrite bind_Ok in Hacc.
    apply Forall_cons in Hunp as [Hr Hunp].
    unfold has_unprocessed in Hr. apply Nat.ltb_lt in Hr. rewrite Hr.
    assert ((tries + 1 <? 5) = true) as -> by lia.
    cbn [length] in Hlen.
    rewrite (IH fuel (tries + 1) (Z.min (sleepy_time * 2) 32)
               (UnprocessedKeys r) retrieved1 s1
               ((trace ++ [BatchGetItem batch_keys]) ++ [Sleep sleepy_time])
               acc e s'); try done; try lia.
    rewrite (requests_of_S _ n). rewrite backoff_trace_cons.
    by rewrite <- !app_assoc.
Qed.

Lemma requests_of_S_length (n : nat) : ∀ batch_keys s,
  length (responses_of batch_get_item n batch_keys s) = n →
  length (requests_of batch_get_item (S n) batch_keys s) = S n.
Proof.
  induction n as [|n IH]; intros batch_keys s Hlen.
  { rewrite requests_of_S.
    by destruct (batch_get_item batch_keys s) as [[r|e] s1]. }
  rewrite responses_of_S in Hlen. rewrite requests_of_S.
  destruct (batch_get_item batch_keys s) as [[r|e] s1]; [|done].
  cbn [length] in *. f_equal. apply IH. lia.
Qed.

(** X7. A store error is not retried and drops the items gathered so far:
    when the first [n] responses ([n] at most 4) leave keys unprocessed and
    the next call raises, [do_batch_get] raises the same exception after
    [n + 1] calls and [n] sleeps; no item is returned. *)
Theorem do_batch_get_store_error (n : nat)
    (batch_keys : gmap string (list item)) (s : St) (e : exn) (s' : St) :
  (n ≤ 4)%nat →
  length (responses_of batch_get_item n batch_keys s) = n →
  Forall has_unprocessed (responses_of batch_get_item n batch_keys s) →
  Forall (names_requested batch_keys)
    (responses_of batch_get_item n batch_keys s) →
  call_after batch_get_item n batch_keys s = (Raise e, s') →
  ∃ trace,
    do_batch_get batch_get_item batch_keys s = Some (Raise e, s', trace)
    ∧ calls_of trace = requests_of batch_get_item (S n) batch_keys s
    ∧ length (calls_of trace) = S n
    ∧ sleeps_of trace = take n [1; 2; 4; 8].
Proof.
  intros Hn Hlen Hunp Hnames Hfail.
  destruct (accumulate_ok _ batch_keys ((λ _, []) <$> batch_keys)
              (dom_fmap_L _ _) Hnames) as (acc & Hacc & _).
  pose proof (do_batch_get_loop_fail n 6 0 1 batch_keys
                ((λ _, []) <$> batch_keys) s [] acc e s') as Hrun.
  unfold max_tries in Hrun.
  specialize (Hrun ltac:(lia) ltac:(lia) ltac:(lia) Hlen Hunp Hacc
                (or_introl Hfail)).
  pose proof (requests_of_S_length n batch_keys s Hlen) as Hreq.
  exists (backoff_trace 1 (requests_of batch_get_item (S n) batch_keys s)).
  destruct (requests_of batch_get_item (S n) batch_keys s) as [|k reqs];
    [done|].
  cbn [length] in Hreq. split_and!; [done| | |].
  - apply calls_of_backoff_trace.
  - rewrite calls_of_backoff_trace. cbn [length]. lia.
  - rewrite sleeps_of_backoff_trace.
    replace (length reqs) with n by lia. by apply doubling_from_one.
Qed.

(** X8. A response that lists items under a table that was not requested
    makes [retrieved[key] += ...] fail: after [n] responses with
    unprocessed keys ([n] at most 4), such a response ends the function
    with [KeyError] for the first such table. *)
Theorem do_batch_get_unrequested_table (n : nat)
    (batch_keys : gmap string (list item)) (s : St)
    (r : batch_get_response) (s' : St) :
  (n ≤ 4)%nat →
  length (responses_of batch_get_item n batch_keys s) = n →
  Forall has_unprocessed (responses_of batch_get_item n batch_keys s) →
  Forall (names_requested batch_keys)
    (responses_of batch_get_item n batch_keys s) →
  call_after batch_get_item n batch_keys s = (Ok r, s') →
  ¬ names_requested batch_keys r →
  ∃ t trace,
    do_batch_get batch_get_item batch_keys s
    = Some (Raise (KeyError t), s', trace)
    ∧ t ∈ response_tables r ∧ (t ∉ dom batch_keys)
    ∧ length (calls_of trace) = S n.
Proof.
  intros Hn Hlen Hunp Hnames Hcall Hbad.
  destruct (accumulate_ok _ batch_keys ((λ _, []) <$> batch_keys)
              (dom_fmap_L _ _) Hnames) as (acc & Hacc & Hdom).
  destruct (collect_key_error (default [] (Responses r)) acc)
    as (t & Hcollect & Ht & Htdom).
  { rewrite Hdom. unfold names_requested, response_tables in Hbad.
    rewrite <- Forall_forall in Hbad.
    apply not_Forall_Exists in Hbad; [|apply _]. exact Hbad. }
  pose proof (do_batch_get_loop_fail n 6 0 1 batch_keys
                ((λ _, []) <$> batch_keys) s [] acc (KeyError t) s') as Hrun.
  unfold max_tries in Hrun.
  specialize (Hrun ltac:(lia) ltac:(lia) ltac:(lia) Hlen Hunp Hacc
                (or_intror (ex_intro _ r (conj Hcall Hcollect)))).
  pose proof (requests_of_S_length n batch_keys s Hlen) as Hreq.
  exists t,
    (backoff_trace 1 (requests_of batch_get_item (S n) batch_keys s)).
  destruct (requests_of batch_get_item (S n) batch_keys s) as [|k reqs];
    [done|].
  split_and!; [done|done|by rewrite <- Hdom|].
  by rewrite calls_of_backoff_trace.
Qed.

(** The accumulator keeps its keys. *)
Lemma do_batch_get_loop_dom (fuel : nat) :
  ∀ tries sleepy_time batch_keys retrieved s trace acc s' trace',
  do_batch_get_loop batch_get_item fuel tries sleepy_time batch_keys
    retrieved s trace = Some (Ok acc, s', trace') →
  dom acc = dom retrieved.
Proof.
  induction fuel as [|fuel IH];
    intros tries sleepy_time batch_keys retrieved s trace acc s' trace' Hrun;
    [done|].
  cbn [do_batch_get_loop] in Hrun.
  destruct (tries <? max_tries); [|by simplify_eq].
  destruct (batch_get_item batch_keys s) as [[r|e] s1]; [|done].
  destruct (collect _ retrieved) as [retrieved1|e] eqn:Hc; [|done].
  apply collect_dom in Hc.
  destruct (0 <? size (UnprocessedKeys r))%nat; [|by simplify_eq].
  destruct (tries + 1 <? max_tries); apply IH in Hrun; congruence.
Qed.

(** X9. Whenever [do_batch_get] returns, the dictionary it returns has
    exactly the requested table names as keys: a table for which nothing
    was retrieved is present with an empty list. *)
Theorem do_batch_get_result_tables (batch_keys : gmap string (list item))
    (s : St) (acc : gmap string (list item)) (s' : St)
    (trace : list event) :
  do_batch_get batch_get_item batch_keys s = Some (Ok acc, s', trace) →
  dom acc = dom batch_keys.
Proof.
  intros Hrun. apply do_batch_get_loop_dom in Hrun.
  by rewrite Hrun, dom_fmap_L.
Qed.
End BatchGetMore.

Lemma do_batch_get_retries_then_done_witness :
  ∃ acc s' trace,
    do_batch_get (flaky_store 2) one_key_request 0%nat
    = Some (Ok acc, s', trace)
    ∧ calls_of trace = requests_of (flaky_store 2) 3 one_key_request 0%nat
    ∧ length (calls_of trace) = 3%nat
    ∧ sleeps_of trace = take 2 [1; 2; 4; 8]
    ∧ accumulate (responses_of (flaky_store 2) 3 one_key_request 0%nat)
        ((λ _, []) <$> one_key_request) = Ok acc.
Proof.
  apply (do_batch_get_retries_then_done (flaky_store 2) 2 one_key_request
           0%nat).
  - lia.
  - reflexivity.
  - repeat constructor.
  - intros r Hr.
    cbn [responses_of flaky_store last Nat.eqb UnprocessedKeys] in Hr.
    injection Hr as <-.
    unfold has_unprocessed. simpl. rewrite map_size_empty. lia.
  - repeat constructor; intros t Ht; inversion Ht.
Defined.

Lemma do_batch_get_store_error_witness :
  ∃ trace,
    do_batch_get (failing_store 2) one_key_request 0%nat
    = Some (Raise (ClientError "ProvisionedThroughputExceededException"
                     "The level of configured provisioned throughput was exceeded"),
            3%nat, trace)
    ∧ calls_of trace = requests_of (failing_store 2) 3 one_key_request 0%nat
    ∧ length (calls_of trace) = 3%nat
    ∧ sleeps_of trace = take 2 [1; 2; 4; 8].
Proof.
  apply (do_batch_get_store_error (failing_store 2) 2 one_key_request 0%nat).
  - lia.
  - reflexivity.
  - repeat constructor.
  - repeat constructor; intros t Ht; inversion Ht.
  - reflexivity.
Defined.

Lemma do_batch_get_unrequested_table_witness :
  ∃ t trace,
    do_batch_get confused_store one_key_request ()
    = Some (Raise (KeyError t), (), trace)
    ∧ t ∈ response_tables
            {| Responses := Some [("other-table", [sample_entry])];
               UnprocessedKeys := ∅ |}
    ∧ (t ∉ dom one_key_request)
    ∧ length (calls_of trace) = 1%nat.
Proof.
  apply (do_batch_get_unrequested_table confused_store 0 one_key_request ()).
  - lia.
  - reflexivity.
  - constructor.
  - constructor.
  - reflexivity.
  - intros Hall. specialize (Hall "other-table" ltac:(by left)).
    unfold one_key_request in Hall. rewrite dom_singleton_L in Hall.
    by apply elem_of_singleton in Hall.
Defined.

Lemma do_batch_get_result_tables_witness :
  dom ((λ _ : list item, @nil item) <$> one_key_request)
  = dom one_key_request.
Proof.
  apply (do_batch_get_result_tables (flaky_store 0) one_key_request 0%nat
           _ 1%nat [BatchGetItem one_key_request]).
  reflexivity.
Defined.

(** ** More on [DynamoDBTable], against any store *)

Section ClientMore.
Context {St : Type} `{DynResource St} `{DynItems St}.

(** X10. After a [delete_table] that succeeded the client is unbound, and
    every further [delete_table], [write_batch], [get_entry], [add_entry]
    or [query_table] raises [AttributeError] without a call to the store
    and without a log record. *)
Theorem delete_table_then_unbound (self : DynamoDBTable) (w : world St)
    (t : string) (s' : St) :
  table self = Some t →
  table_delete t (store w) = (Ok (), s') →
  ∃ self' w',
    delete_table self w = (Ok (), self', w')
    ∧ table self' = None ∧ store w' = s' ∧ log w' = log w
    ∧ delete_table self' w' = (Raise AttributeError, self', w')
    ∧ (∀ entries,
         write_batch entries self' w' = (Raise AttributeError, self', w'))
    ∧ (∀ image_name is_train,
         get_entry image_name is_train self' w'
         = (Raise AttributeError, self', w'))
    ∧ (∀ json_file,
         add_entry json_file self' w' = (Raise AttributeError, self', w'))
    ∧ (∀ query_by query,
         query_table query_by query self' w'
         = (Raise AttributeError, self', w')).
Proof.
  intros Ht Hdel. unfold delete_table at 1. rewrite Ht, Hdel.
  eexists _, _. split_and!; try done.
Qed.

(** X11. [run_scenario] returns a bound client whenever it returns: bound
    to the table it looked up when that exists, and else to the table the
    store created.  It asks for the creation only after the store has
    answered the lookup with [ResourceNotFoundException]. *)
Theorem run_scenario_bound (table_name : string) (w w' : world St)
    (dt : DynamoDBTable) :
  run_scenario table_name w = (Ok dt, w') →
  (∃ s, table_load table_name (store w) = (Ok (), s)
        ∧ table dt = Some table_name ∧ store w' = s)
  ∨ (∃ message s t s1,
       table_load table_name (store w)
       = (Raise (ClientError "ResourceNotFoundException" message), s)
       ∧ resource_create_table (table_schema_args table_name) s = (Ok t, s1)
       ∧ table_wait_until_exists t s1 = (Ok (), store w')
       ∧ table dt = Some t).
Proof.
  unfold run_scenario, exists_. intros Hrun.
  destruct (table_load table_name (store w)) as [[[]|e] s] eqn:Hload.
  - left. exists s. by simplify_eq/=.
  - destruct e as [| |k| | |code message|name]; try done.
    destruct (String.eqb code "ResourceNotFoundException") eqn:Hcode;
      [|done].
    apply String.eqb_eq in Hcode as ->. right. cbn in Hrun.
    unfold create_table in Hrun. cbn [store set_store] in Hrun.
    destruct (resource_create_table _ s) as [[t|e] s1] eqn:Hcreate.
    + destruct (table_wait_until_exists t s1) as [[[]|e] s2] eqn:Hwait.
      * exists message, s, t, s1. by simplify_eq/=.
      * by destruct e.
    + by destruct e.
Qed.

(** X12. [add_entry] reads the four entries [image_name], [num_faces],
    [faces] and [train_set] of its argument before it calls the store: when
    one of them is missing, a bound client raises [KeyError] for a missing
    entry, the store is not called and nothing is logged. *)
Theorem add_entry_missing_key (json_file : gmap string value)
    (self : DynamoDBTable) (w : world St) (t k : string) :
  table self = Some t →
  k ∈ ["image_name"; "num_faces"; "faces"; "train_set"] →
  json_file !! k = None →
  ∃ k', add_entry json_file self w = (Raise (KeyError k'), self, w)
        ∧ json_file !! k' = None.
Proof.
  intros Ht Hk Hnone. unfold add_entry, getkey. rewrite Ht.
  destruct (json_file !! "image_name") as [v1|] eqn:H1;
    [|by exists "image_name"].
  destruct (json_file !! "num_faces") as [v2|] eqn:H2;
    [|by exists "num_faces"].
  destruct (json_file !! "faces") as [v3|] eqn:H3; [|by exists "faces"].
  destruct (json_file !! "train_set") as [v4|] eqn:H4;
    [|by exists "train_set"].
  exfalso. repeat (apply elem_of_cons in Hk as [->|Hk]; [congruence|]).
  by inversion Hk.
Qed.
End ClientMore.

Lemma delete_table_then_unbound_witness :
  ∃ self' w',
    delete_table faces_client {| store := is_train_store; log := [] |}
    = (Ok (), self', w')
    ∧ table self' = None ∧ store w' = ∅ ∧ log w' = []
    ∧ delete_table self' w' = (Raise AttributeError, self', w')
    ∧ (∀ entries,
         write_batch entries self' w' = (Raise AttributeError, self', w'))
    ∧ (∀ image_name is_train,
         get_entry image_name is_train self' w'
         = (Raise AttributeError, self', w'))
    ∧ (∀ json_file,
         add_entry json_file self' w' = (Raise AttributeError, self', w'))
    ∧ (∀ query_by query,
         query_table query_by query self' w'
         = (Raise AttributeError, self', w')).
Proof.
  apply (delete_table_then_unbound faces_client
           {| store := is_train_store; log := [] |} "faces" ∅).
  - reflexivity.
  - vm_compute. reflexivity.
Defined.

Lemma run_scenario_bound_witness :
  (∃ s, table_load "faces" is_train_store = (Ok (), s)
        ∧ table faces_client = Some "faces" ∧ is_train_store = s)
  ∨ (∃ message s t s1,
       table_load "faces" is_train_store
       = (Raise (ClientError "ResourceNotFoundException" message), s)
       ∧ resource_create_table (table_schema_args "faces") s = (Ok t, s1)
       ∧ table_wait_until_exists t s1 = (Ok (), is_train_store)
       ∧ table faces_client = Some t).
Proof.
  apply (run_scenario_bound "faces" {| store := is_train_store; log := [] |}
           {| store := is_train_store; log := [] |} faces_client).
  reflexivity.
Defined.

Lemma add_entry_missing_key_witness :
  ∃ k', add_entry (delete "faces" sample_entry) faces_client
          {| store := is_train_store; log := [] |}
        = (Raise (KeyError k'), faces_client,
           {| store := is_train_store; log := [] |})
        ∧ delete "faces" sample_entry !! k' = None.
Proof.
  apply (add_entry_missing_key (delete "faces" sample_entry) faces_client
           {| store := is_train_store; log := [] |} "faces" "faces").
  - reflexivity.
  - by apply (bool_decide_unpack _).
  - apply lookup_delete_eq.
Defined.

(** ** More on [DynamoDBTable], on the in-memory store *)

Lemma world_eta {St} (w : world St) :
  {| store := store w; log := log w |} = w.
Proof. by destruct w. Qed.

Lemma mem_create_table_fresh (table_name : string) (s : mem_store) :
  s !! table_name = None →
  mem_create_table (table_schema_args table_name) s
  = (Ok table_name, <[table_name := created_table []]> s).
Proof.
  intros Hnone. unfold mem_create_table.
  cbn [TableName KeySchema AttributeDefinitions table_schema_args].
  rewrite Hnone.
  by change (length (key_attributes _) =? _)%nat with true.
Qed.

Lemma create_table_fresh (table_name : string) (self : DynamoDBTable)
    (w : world mem_store) :
  store w !! table_name = None →
  create_table table_name self w
  = (Ok table_name, {| table := Some table_name |},
     set_store w (<[table_name := created_table []]> (store w))).
Proof.
  intros Hnone. unfold create_table, resource_create_table,
    table_wait_until_exists. cbn [mem_resource].
  rewrite mem_create_table_fresh by done.
  unfold mem_wait_until_exists, mem_load. by rewrite lookup_insert_eq.
Qed.

Lemma exists_missing (table_name : string) (self : DynamoDBTable)
    (w : world mem_store) :
  store w !! table_name = None →
  exists_ table_name self w = (Ok false, self, w).
Proof.
  intros Hnone. unfold exists_, table_load. cbn [mem_resource].
  unfold mem_load. rewrite Hnone. cbn. unfold set_store.
  by rewrite world_eta.
Qed.

(** X13. The life of a table: when the store has no table of the name,
    [exists] answers [False] and binds nothing, [create_table] then
    succeeds, binds the client and leaves an empty table with the key
    [train_set], [image_name]; a fresh [exists] then answers [True] and
    binds its client.  Nothing is logged. *)
Theorem exists_create_exists (table_name : string) (w : world mem_store) :
  store w !! table_name = None →
  exists_ table_name __init__ w = (Ok false, __init__, w)
  ∧ ∃ w1,
      create_table table_name __init__ w
      = (Ok table_name, {| table := Some table_name |}, w1)
      ∧ store w1 = <[table_name := created_table []]> (store w)
      ∧ log w1 = log w
      ∧ exists_ table_name __init__ w1
        = (Ok true, {| table := Some table_name |}, w1).
Proof.
  intros Hnone. split; [by apply exists_missing|].
  eexists. split_and!; [by apply create_table_fresh|done|done|].
  unfold exists_, table_load. cbn [mem_resource]. unfold mem_load.
  cbn [store set_store]. rewrite lookup_insert_eq.
  unfold set_store. done.
Qed.

Lemma exists_create_exists_witness :
  exists_ "facial-detection-dataset" __init__ empty_world
  = (Ok false, __init__, empty_world)
  ∧ ∃ w1,
      create_table "facial-detection-dataset" __init__ empty_world
      = (Ok "facial-detection-dataset",
         {| table := Some "facial-detection-dataset" |}, w1)
      ∧ store w1 = <["facial-detection-dataset" := created_table []]> ∅
      ∧ log w1 = []
      ∧ exists_ "facial-detection-dataset" __init__ w1
        = (Ok true, {| table := Some "facial-detection-dataset" |}, w1).
Proof.
  apply (exists_create_exists "facial-detection-dataset" empty_world).
  apply lookup_empty.
Defined.

(** X14. On this store [run_scenario] always returns a client bound to the
    table of the given name.  A table that exists is left as it is, with
    its items; a missing table is created empty.  Nothing is logged. *)
Theorem run_scenario_keeps_table (table_name : string)
    (w : world mem_store) :
  ∃ w',
    run_scenario table_name w = (Ok {| table := Some table_name |}, w')
    ∧ log w' = log w
    ∧ store w'
      = match store w !! table_name with
        | Some _ => store w
        | None => <[table_name := created_table []]> (store w)
        end.
Proof.
  unfold run_scenario.
  destruct (store w !! table_name) as [td|] eqn:Htd.
  - unfold exists_, table_load. cbn [mem_resource]. unfold mem_load.
    rewrite Htd. cbn. by eexists.
  - rewrite exists_missing by done.
    cbn [negb]. rewrite create_table_fresh by done. by eexists.
Qed.

Lemma mem_batch_write_cases (t : string) (items : list item) (s : mem_store)
    (td : table_data) :
  s !! t = Some td →
  (∃ m, mem_batch_write t items s = (validation_error m, s))
  ∨ (forallb (valid_item td) items = true
     ∧ mem_batch_write t items s
       = (Ok (), <[t := foldl put_one td items]> s)).
Proof.
  intros Htd. unfold mem_batch_write. rewrite Htd.
  destruct (forallb (valid_item td) items); simpl; [|by left; eexists].
  case_bool_decide; [by right|by left; eexists].
Qed.

Lemma Exists_invalid_schema (td td' : table_data) (l : list item) :
  td_key_schema td' = td_key_schema td →
  td_attributes td' = td_attributes td →
  Exists (λ it, valid_item td it = false) l →
  Exists (λ it, valid_item td' it = false) l.
Proof.
  intros Hk Ha Hex. eapply Exists_impl; [exact Hex|]. intros it Hit.
  by rewrite (valid_item_schema td td').
Qed.

Lemma Exists_invalid_drop (td : table_data) (l : list item) (n : nat) :
  forallb (valid_item td) (take n l) = true →
  Exists (λ it, valid_item td it = false) l →
  Exists (λ it, valid_item td it = false) (drop n l).
Proof.
  intros Hvalid Hex. rewrite <- (take_drop n l) in Hex.
  apply Exists_app in Hex as [Hex|Hex]; [|done].
  apply Exists_exists in Hex as (it & Hit & Hbad).
  rewrite forallb_forall in Hvalid.
  rewrite Hvalid in Hbad; [done|]. by apply list_elem_of_In.
Qed.

Lemma mem_flush_all_invalid (fuel : nat) (t : string) :
  ∀ (buffer : list item) (s : mem_store) (td : table_data),
  s !! t = Some td →
  (length buffer ≤ fuel)%nat →
  Exists (λ it, valid_item td it = false) buffer →
  ∃ m s', mem_flush_all fuel t buffer s = (validation_error m, s').
Proof.
  induction fuel as [|fuel IH]; intros buffer s td Htd Hlen Hex.
  { destruct buffer; [by inversion Hex|simpl in Hlen; lia]. }
  destruct buffer as [|b buffer]; [by inversion Hex|].
  cbn [mem_flush_all].
  destruct (mem_batch_write_cases t (take flush_amount (b :: buffer)) s td
              Htd) as [[m ->]|[Hvalid ->]]; [by eexists _, _|].
  eapply (IH _ _ (foldl put_one td (take flush_amount (b :: buffer)))).
  - apply lookup_insert_eq.
  - rewrite length_drop. unfold flush_amount. simpl in *. lia.
  - eapply Exists_invalid_schema; [apply foldl_put_one_schema..|].
    by apply Exists_invalid_drop.
Qed.

Lemma put_entries_invalid (t : string) (entries : list item) :
  ∀ (buffer : list item) (s : mem_store) (td : table_data),
  s !! t = Some td →
  Exists (λ it, valid_item td it = false) (buffer ++ entries) →
  ∃ m s', put_entries t buffer entries s = (validation_error m, s').
Proof.
  induction entries as [|entry entries IH]; intros buffer s td Htd Hex.
  - rewrite app_nil_r in Hex. cbn [put_entries].
    change (writer_exit t buffer s) with (mem_writer_exit t buffer s).
    by eapply mem_flush_all_invalid.
  - cbn [put_entries].
    change (writer_put_item t buffer entry s)
      with (mem_writer_put_item t buffer entry s).
    unfold mem_writer_put_item.
    replace (buffer ++ entry :: entries)
      with ((buffer ++ [entry]) ++ entries) in Hex
      by (by rewrite <- app_assoc).
    destruct (flush_amount <=? length (buffer ++ [entry]))%nat;
      [|by eapply IH].
    destruct (mem_batch_write_cases t
                (take flush_amount (buffer ++ [entry])) s td Htd)
      as [[m ->]|[Hvalid ->]]; [by eexists _, _|].
    eapply (IH _ _ (foldl put_one td
                      (take flush_amount (buffer ++ [entry])))).
    + apply lookup_insert_eq.
    + eapply Exists_invalid_schema; [apply foldl_put_one_schema..|].
      rewrite <- (take_drop flush_amount (buffer ++ [entry])) in Hex.
      rewrite <- app_assoc in Hex.
      apply Exists_app in Hex as [Hex|Hex]; [|done].
      apply Exists_exists in Hex as (it & Hit & Hbad).
      rewrite forallb_forall in Hvalid.
      rewrite Hvalid in Hbad; [done|]. by apply list_elem_of_In.
Qed.

(** X15. An entry that lacks a key attribute of the table, or has it with
    a value of the wrong type, makes [write_batch] fail: wherever the entry
    stands in the list, the call raises the store's
    [ValidationException] and logs it once. *)
Theorem write_batch_badly_keyed (entries : list item) (self : DynamoDBTable)
    (w : world mem_store) (t : string) (td : table_data) (e : item) :
  table self = Some t →
  store w !! t = Some td →
  e ∈ entries →
  valid_item td e = false →
  ∃ m w',
    write_batch entries self w
    = (Raise (ClientError "ValidationException" m), self, w')
    ∧ log w'
      = log w ++ [("Couldn't load data into table %s. Here's why: %s: %s",
                   [VStr t; VStr "ValidationException"; VStr m])].
Proof.
  intros Ht Htd He Hbad. unfold write_batch. rewrite Ht.
  destruct (put_entries_invalid t entries [] (store w) td Htd)
    as (m & s' & ->).
  { apply Exists_exists. by exists e. }
  by eexists _, _.
Qed.

Lemma write_batch_badly_keyed_witness :
  ∃ m w',
    write_batch [sample_entry; delete "train_set" sample_entry]
      sample_client created_world
    = (Raise (ClientError "ValidationException" m), sample_client, w')
    ∧ log w'
      = log created_world
        ++ [("Couldn't load data into table %s. Here's why: %s: %s",
             [VStr "facial-detection-dataset"; VStr "ValidationException";
              VStr m])].
Proof.
  apply (write_batch_badly_keyed _ sample_client created_world
           "facial-detection-dataset" (created_table [])
           (delete "train_set" sample_entry)).
  - reflexivity.
  - vm_compute. reflexivity.
  - by right; left.
  - vm_compute. reflexivity.
Defined.

(** X16. [add_entry] stores exactly the four entries it reads: on a table
    keyed as [create_table] declares, the call succeeds, logs nothing, and
    [get_item] with the key of the entry then returns the dictionary of
    [image_name], [num_faces], [faces] and [train_set]; whatever else the
    argument holds is not stored. *)
Theorem add_entry_get_item (json_file : gmap string value)
    (self : DynamoDBTable) (w : world mem_store) (t : string)
    (items : list item) (n : string) (ts : Z) (num_faces faces : value) :
  table self = Some t →
  store w !! t = Some (created_table items) →
  json_file !! "image_name" = Some (VStr n) →
  json_file !! "num_faces" = Some num_faces →
  json_file !! "faces" = Some faces →
  json_file !! "train_set" = Some (VInt ts) →
  ∃ w',
    add_entry json_file self w = (Ok (), self, w')
    ∧ log w' = log w
    ∧ (mem_get_item t (schema_key (VStr n) (VInt ts)) (store w')).1
      = Ok {| Item :=
                Some (<["image_name" := VStr n]>
                        (<["num_faces" := num_faces]>
                          (<["faces" := faces]>
                            (<["train_set" := VInt ts]> ∅)))) |}.
Proof.
  intros Ht Htd Hn Hnum Hfaces Hts. unfold add_entry, getkey.
  rewrite Ht, Hn, Hnum, Hfaces, Hts. cbn.
  set (it := <["image_name" := VStr n]>
               (<["num_faces" := num_faces]>
                 (<["faces" := faces]> (<["train_set" := VInt ts]> ∅)))).
  assert (it !! "image_name" = Some (VStr n)) as Hin
    by apply lookup_insert_eq.
  assert (it !! "train_set" = Some (VInt ts)) as Hit.
  { unfold it. do 3 (rewrite lookup_insert_ne by done).
    apply lookup_insert_eq. }
  unfold mem_put_item. rewrite Htd.
  rewrite created_table_valid_item by by exists n, ts.
  eexists. split_and!; [done|done|]. cbn [store set_store].
  unfold mem_get_item. rewrite lookup_insert_eq.
  rewrite (valid_key_schema (created_table items)) by done.
  rewrite created_table_valid_key. cbn [fst]. do 2 f_equal.
  rewrite <- (created_table_item_key items it _ _ Hin Hit).
  apply stored_put_one_same.
Qed.

Lemma add_entry_get_item_witness :
  ∃ w',
    add_entry (<["split" := VStr "fold-01"]> sample_entry) sample_client
      created_world
    = (Ok (), sample_client, w')
    ∧ log w' = log created_world
    ∧ (mem_get_item "facial-detection-dataset"
         (schema_key (VStr "2002/08/11/big/img_591") (VInt 1)) (store w')).1
      = Ok {| Item :=
                Some (<["image_name" := VStr "2002/08/11/big/img_591"]>
                        (<["num_faces" := VInt 1]>
                          (<["faces" :=
                               VList ["123.5 85.5 1.26 269.6 161.7  1"]]>
                            (<["train_set" := VInt 1]> ∅)))) |}.
Proof.
  apply (add_entry_get_item _ sample_client created_world
           "facial-detection-dataset" []).
  - reflexivity.
  - vm_compute. reflexivity.
  - vm_compute. reflexivity.
  - vm_compute. reflexivity.
  - vm_compute. reflexivity.
  - vm_compute. reflexivity.
Defined.

Lemma created_schema_table (s : mem_store) (t : string) :
  schema_of s t = Some (KeySchema (table_schema_args t),
                        AttributeDefinitions (table_schema_args t)) →
  ∃ items, s !! t = Some (created_table items).
Proof.
  unfold schema_of. intros Hs.
  destruct (s !! t) as [[ks attrs items]|]; [|done].
  cbn in Hs. simplify_eq. by exists items.
Qed.

(** The schema of the table after [create_table] and [write_batch]. *)
Lemma client_after_write_schema (table_name : string)
    (entries : list item) :
  table (client_after_write table_name entries).1 = Some table_name
  ∧ schema_of (store (client_after_write table_name entries).2) table_name
    = Some (KeySchema (table_schema_args table_name),
            AttributeDefinitions (table_schema_args table_name)).
Proof.
  unfold client_after_write. rewrite create_table_empty_world.
  cbv beta iota.
  match goal with |- context [write_batch entries ?dt ?w] =>
    pose proof (write_batch_schema entries dt w table_name) as Hs;
    assert ((write_batch entries dt w).1.2 = dt) as Hdt
  end.
  { unfold write_batch. cbn [table].
    by destruct (put_entries _ _ _ _) as [[?|[]] s1]. }
  destruct (write_batch entries _ _) as [[r dt] w2]. cbn in Hdt, Hs.
  subst dt. cbn [fst snd table]. split; [done|].
  rewrite Hs. unfold schema_of. by rewrite lookup_singleton_eq.
Qed.

(** X17. [query_table] called without arguments asks for [is_train = 1].
    On a table made by [create_table] the partition key is [train_set], so
    the store rejects the query whatever has been written: the call raises
    [ValidationException] and returns no item. *)
Theorem query_table_default_rejected (table_name : string)
    (entries : list item) :
  (query_table_default
     (client_after_write table_name entries).1
     (client_after_write table_name entries).2).1.1
  = Raise (ClientError "ValidationException"
             "Query condition missed key schema element").
Proof.
  destruct (client_after_write_schema table_name entries) as [Ht Hs].
  destruct (created_schema_table _ _ Hs) as [items Htd].
  unfold query_table_default, query_table. rewrite Ht.
  change (table_query table_name ?q ?v ?s)
    with (mem_query table_name q v s).
  unfold mem_query. rewrite Htd.
  by change (hash_attribute _) with (Some ("train_set", AttrN)).
Qed.

Lemma put_one_items (td : table_data) (it e : item) :
  e ∈ td_items (put_one td it)
  ↔ (e ∈ td_items td ∧ item_key td e ≠ item_key td it) ∨ e = it.
Proof.
  unfold put_one. cbn [td_items].
  rewrite elem_of_app, list_elem_of_filter, list_elem_of_singleton.
  split.
  - intros [[Hne Hin]|Heq]; [by left|by right].
  - intros [[Hin Hne]|Heq]; [by left|by right].
Qed.

(** With pairwise distinct keys, the table holds the items written and
    those it had under other keys. *)
Lemma foldl_put_one_items (l : list item) : ∀ (td : table_data) (e : item),
  NoDup (item_key td <$> l) →
  e ∈ td_items (foldl put_one td l)
  ↔ (e ∈ td_items td ∧ item_key td e ∉ item_key td <$> l) ∨ e ∈ l.
Proof.
  induction l as [|a l IH]; intros td e Hnd.
  - simpl. split; [intros; left; split; [done|by inversion 1]|].
    intros [[? _]|Hin]; [done|by inversion Hin].
  - rewrite fmap_cons in Hnd. apply NoDup_cons in Hnd as [Ha Hnd].
    cbn [foldl]. rewrite (IH (put_one td a) e) by done.
    rewrite put_one_items. rewrite fmap_cons, !elem_of_cons.
    change (item_key (put_one td a)) with (item_key td).
    split.
    + intros [[[[Hin Hne] | ->] Hnot] | Hin];
        [|by right; left|by right; right].
      left. split; [done|]. intros [?|?]; done.
    + intros [[Hin Hnot] | [-> | Hin]];
        [|by left; split; [right|]|by right].
      left. split; [|by intros ?; apply Hnot; right].
      left. split; [done|]. intros Heq. apply Hnot. by left.
Qed.

(** What the store holds after [create_table] and a [write_batch] of
    well-keyed entries with pairwise distinct keys. *)
Lemma client_after_write_ok (table_name : string) (entries : list item) :
  Forall well_keyed entries →
  NoDup (item_key (created_table []) <$> entries) →
  client_after_write table_name entries
  = ({| table := Some table_name |},
     {| store := {[ table_name :=
                      foldl put_one (created_table []) entries ]};
        log := [] |}).
Proof.
  intros Hkeyed Hnd.
  unfold client_after_write. rewrite create_table_empty_world.
  cbv beta iota. unfold write_batch. cbn [table store].
  change {| td_key_schema := KeySchema (table_schema_args table_name);
            td_attributes := AttributeDefinitions (table_schema_args table_name);
            td_items := [] |} with (created_table []).
  rewrite (put_entries_ok table_name entries [] _ (created_table [])).
  - unfold set_store. cbn [log]. by rewrite insert_singleton_eq.
  - apply lookup_singleton_eq.
  - unfold flush_amount. simpl. lia.
  - simpl. apply forallb_forall. intros it Hit.
    apply created_table_valid_item.
    by apply (proj1 (Forall_forall _ _) Hkeyed), list_elem_of_In.
  - done.
Qed.

(** X18. Asked for the partition attribute of the schema, [query_table]
    answers with the written entries of that partition: after
    [create_table] and a [write_batch] of well-keyed entries with pairwise
    distinct keys, [query_table("train_set", v)] returns, within one page of
    the store's answer, the entries whose [train_set] is [v], all of them
    and nothing else. *)
Theorem query_table_partition (table_name : string) (entries : list item)
    (v : Z) :
  Forall well_keyed entries →
  NoDup (item_key (created_table []) <$> entries) →
  ∃ items,
    (query_table "train_set" (VInt v)
       (client_after_write table_name entries).1
       (client_after_write table_name entries).2).1.1 = Ok items
    ∧ ∀ e, e ∈ items
           ↔ e ∈ entries ∧ e !! "train_set" = Some (VInt v).
Proof.
  intros Hkeyed Hnd. rewrite client_after_write_ok by done.
  unfold query_table. cbn [fst snd table store].
  change (table_query table_name ?q ?x ?s) with (mem_query table_name q x s).
  unfold mem_query. rewrite lookup_singleton_eq.
  set (td := foldl put_one (created_table []) entries).
  assert (hash_attribute td = Some ("train_set", AttrN)) as ->.
  { unfold hash_attribute, key_attributes, td.
    by destruct (foldl_put_one_schema entries (created_table []))
      as [-> ->]. }
  cbn. eexists. split; [done|]. intros e.
  rewrite list_elem_of_filter. unfold td.
  rewrite (foldl_put_one_items entries (created_table []) e Hnd).
  cbn [td_items created_table]. split.
  - intros [Htag [[Hin _]|Hin]]; [by inversion Hin|done].
  - intros [Hin Htag]. split; [done|by right].
Qed.

Lemma query_table_partition_witness :
  ∃ items,
    (query_table "train_set" (VInt 0)
       (client_after_write "facial-detection-dataset"
          [sample_entry; modify_value sample_entry]).1
       (client_after_write "facial-detection-dataset"
          [sample_entry; modify_value sample_entry]).2).1.1 = Ok items
    ∧ ∀ e, e ∈ items
           ↔ e ∈ [sample_entry; modify_value sample_entry]
             ∧ e !! "train_set" = Some (VInt 0).
Proof.
  apply (query_table_partition "facial-detection-dataset"
           [sample_entry; modify_value sample_entry] 0).
  - repeat constructor; by eexists _, _.
  - apply (bool_decide_unpack _). vm_compute. reflexivity.
Defined.

Lemma write_batch_get_item_roundtrip_witness :
  table (client_after_write "facial-detection-dataset"
           [sample_entry; modify_value sample_entry]).1
  = Some "facial-detection-dataset"
  ∧ (mem_get_item "facial-detection-dataset"
       (schema_key (VStr "2002/08/11/big/img_591") (VInt 0))
       (store (client_after_write "facial-detection-dataset"
                 [sample_entry; modify_value sample_entry]).2)).1
    = Ok {| Item := Some (modify_value sample_entry) |}.
Proof.
  apply (write_batch_get_item_roundtrip "facial-detection-dataset"
           [sample_entry; modify_value sample_entry]).
  - repeat constructor; by eexists _, _.
  - apply (bool_decide_unpack _). vm_compute. reflexivity.
  - by right; left.
  - vm_compute. reflexivity.
  - vm_compute. reflexivity.
Defined.

(** ** The script: what stops it and what it uploads *)

Lemma count_in (names : list value) (v : value) :
  v ∈ names → (1 ≤ count names v)%nat.
Proof.
  unfold count. induction 1 as [v names|v a names _ IH].
  - rewrite filter_cons, decide_True by done. simpl. lia.
  - rewrite filter_cons. destruct (decide (a = v)); simpl; lia.
Qed.

Lemma count_cons_le (names : list value) (a v : value) :
  (count names v ≤ count (a :: names) v)%nat.
Proof.
  unfold count. rewrite filter_cons.
  destruct (decide (a = v)); simpl; lia.
Qed.

Lemma repeated_name (names : list value) :
  ¬ NoDup names → ∃ v, v ∈ names ∧ (2 ≤ count names v)%nat.
Proof.
  induction names as [|a names IH]; intros Hdup.
  - destruct Hdup. constructor.
  - destruct (decide (a ∈ names)) as [Hin|Hnin].
    + exists a. split; [by left|].
      pose proof (count_in names a Hin).
      unfold count in *. rewrite filter_cons, decide_True by done.
      simpl. lia.
    + destruct IH as (v & Hv & Hcount).
      { intros Hnd. apply Hdup. by constructor. }
      exists v. split; [by right|].
      pose proof (count_cons_le names a v). lia.
Qed.

(** The assertion of line 125 fails on a list with a repetition. *)
Lemma duplicates_found (names : list value) :
  ¬ NoDup names →
  filter (λ n, (1 <? count names n)%nat = true) names ≠ [].
Proof.
  intros Hdup Hnil. destruct (repeated_name names Hdup) as (v & Hv & Hcount).
  assert (v ∈ filter (λ n, (1 <? count names n)%nat = true) names) as Hin.
  { apply list_elem_of_filter. split; [|done]. apply Nat.ltb_lt. lia. }
  rewrite Hnil in Hin. by inversion Hin.
Qed.

(** The names the assertion looks at are those of the records, in the
    order of the array [x]. *)
Lemma split_records_checked (permutation : list nat) (records : heap) :
  permutation ≡ₚ seq 0 (length records) →
  Forall is_Some (image_names records) →
  (2 ≤ length records)%nat →
  ∃ names,
    Some <$> names ≡ₚ image_names records
    ∧ split_records permutation records
      = if (length (filter (λ n, (1 <? count names n)%nat = true) names)
            =? 0)%nat
        then Ok (modify_all (take (n_test_of (length records)) permutation)
                   records,
                 (drop (n_test_of (length records)) permutation,
                  take (n_test_of (length records)) permutation))
        else Raise AssertionError.
Proof.
  intros Hp Hsome Hn. unfold split_records, split_and_tag.
  rewrite train_test_split_seq by done. rewrite bind_Ok. cbv beta iota zeta.
  set (nt := n_test_of (length records)).
  set (h := modify_all (take nt permutation) records).
  pose proof (permutation_bounds _ _ Hp) as Hlt.
  assert (length h = length records) as Hlen by apply modify_all_length.
  assert (drop nt permutation ++ take nt permutation ≡ₚ seq 0 (length h))
    as Hx.
  { rewrite Hlen, <- Hp. rewrite Permutation_app_comm.
    by rewrite take_drop. }
  destruct (mapM_names h (drop nt permutation ++ take nt permutation))
    as (names & Hnames & Heq).
  { unfold h. by rewrite image_names_modify_all. }
  { rewrite Hlen. apply Forall_app. split;
      [by apply Forall_drop|by apply Forall_take]. }
  exists names. split.
  - rewrite Heq. unfold image_names at 1, contents.
    rewrite Hx. fold (contents h (seq 0 (length h))).
    rewrite contents_seq. fold (image_names h). unfold h.
    by rewrite image_names_modify_all.
  - by rewrite Hnames, bind_Ok.
Qed.

Lemma mapM_result_inv {A B} (f : A → result B) (l : list A) :
  ∀ k, mapM f l = Ok k → Forall2 (λ x y, f x = Ok y) l k.
Proof.
  induction l as [|x l IH]; intros k Hk.
  - change (mapM f []) with (Ok (@nil B)) in Hk. simplify_eq. constructor.
  - rewrite mapM_result_cons in Hk.
    destruct (f x) as [y|e] eqn:Hx; [|done].
    destruct (mapM f l) as [k'|e] eqn:Hl; [|done].
    simplify_eq. constructor; [done|by apply IH].
Qed.

(** Every record the script builds comes from [map_list_to_json]. *)
Lemma build_records_built (files : list (list string))
    (records : list (gmap string value)) :
  build_records files = Ok records → Forall built records.
Proof.
  intros Hb. destruct (decide (files = [])) as [->|Hne]; [done|].
  rewrite build_records_files in Hb by done.
  destruct (mapM _ _) as [all_jsons|e] eqn:Hm; [|done].
  rewrite bind_Ok in Hb. simplify_eq.
  apply mapM_result_inv in Hm. apply Forall_concat.
  induction Hm as [|sublists jsons ? ? Hjs _ IH]; [constructor|].
  constructor; [|done].
  apply mapM_result_inv in Hjs. clear -Hjs.
  induction Hjs as [|x d ? ? Hx _ IH]; constructor; [by exists x|done].
Qed.

Section ScriptStops.
Context {St : Type} `{DynResource St}.

(** X19. Two records with the same image name stop the script before the
    store is touched: for files in ASCII text and whatever permutation is
    drawn, the assertion of line 125 fails, no call is made on the store
    and nothing is logged. *)
Theorem main_duplicate_names (permutation : list nat)
    (files : list (list string)) (records : list (gmap string value))
    (w : world St) :
  Forall (Forall is_ascii) files →
  build_records files = Ok records →
  permutation ≡ₚ seq 0 (length records) →
  ¬ NoDup (image_names records) →
  main permutation files w = (Raise AssertionError, w).
Proof.
  intros _ Hbuild Hp Hdup. unfold main. rewrite Hbuild.
  assert (2 ≤ length records)%nat as Hn.
  { destruct records as [|d [|d' records]]; simpl; [| |lia];
      destruct Hdup; repeat constructor; by inversion 1. }
  pose proof (built_named _ (build_records_built _ _ Hbuild)) as Hsome.
  destruct (split_records_checked permutation records Hp Hsome Hn)
    as (names & Hnames & ->).
  assert (¬ NoDup names) as Hdup'.
  { intros Hnd. apply Hdup. rewrite <- Hnames.
    by apply (NoDup_fmap_2 Some). }
  pose proof (duplicates_found names Hdup') as Hfound.
  destruct (filter _ names) as [|v l]; [done|]. done.
Qed.

(** X23. Fewer than two records stop the script as well: the split raises
    [ValueError], so that a single annotated image is never uploaded; no
    call is made on the store and nothing is logged. *)
Theorem main_too_few_records (permutation : list nat)
    (files : list (list string)) (records : list (gmap string value))
    (w : world St) :
  build_records files = Ok records →
  (length records < 2)%nat →
  main permutation files w = (Raise ValueError, w).
Proof.
  intros Hbuild Hfew. unfold main. rewrite Hbuild.
  by rewrite split_records_too_few.
Qed.
End ScriptStops.

Lemma main_duplicate_names_witness :
  main [1; 0]%nat [["2002/a"; "1"; "e1"; "2002/a"; "0"]] empty_world
  = (Raise AssertionError, empty_world).
Proof.
  apply (main_duplicate_names [1; 0]%nat
           [["2002/a"; "1"; "e1"; "2002/a"; "0"]]
           [record_of "2002/a" 1 ["e1"] 1; record_of "2002/a" 0 [] 1]).
  - apply (bool_decide_unpack _). vm_compute. reflexivity.
  - vm_refl.
  - by apply (bool_decide_unpack _).
  - intros Hnd. apply NoDup_cons in Hnd as [Hnin _]. apply Hnin.
    vm_compute. left.
Defined.

Lemma main_too_few_records_witness :
  main [0]%nat [["2002/08/11/big/img_591"; "1";
                 "123.5 85.5 1.26 269.6 161.7  1"]] empty_world
  = (Raise ValueError, empty_world).
Proof.
  apply (main_too_few_records [0]%nat
           [["2002/08/11/big/img_591"; "1";
             "123.5 85.5 1.26 269.6 161.7  1"]] [sample_entry]).
  - vm_refl.
  - simpl. lia.
Defined.

(** ** The script: what it uploads *)

Lemma record_of_tag (name : string) (n : Z) (faces : list string) (t t' : Z) :
  <["train_set" := VInt t']> (record_of name n faces t)
  = record_of name n faces t'.
Proof.
  unfold record_of.
  do 3 (rewrite (insert_insert_ne _ "train_set") by done).
  by rewrite insert_insert_eq.
Qed.

(** After tagging, object [i] is record [i] with its flag set. *)
Lemma tagged_heap_lookup (records : heap) (test : list ref) (i : nat) :
  Forall built records →
  modify_all test records !! i
  = (λ d, <["train_set" := VInt (if decide (i ∈ test) then 0 else 1)]> d)
      <$> records !! i.
Proof.
  intros Hb. rewrite modify_all_lookup.
  destruct (records !! i) as [d|] eqn:Hd; [|done]. simpl. f_equal.
  case_decide; [done|].
  destruct (built_record d (proj1 (Forall_lookup _ _) Hb _ _ Hd))
    as (name & n & faces & ->).
  by rewrite record_of_tag.
Qed.

Lemma well_keyed_tagged (d : gmap string value) (t : Z) :
  built d → well_keyed (<["train_set" := VInt t]> d).
Proof.
  intros Hd. destruct (built_record d Hd) as (name & n & faces & ->).
  exists name, t. rewrite record_of_tag. unfold record_of. split.
  - apply lookup_insert_eq.
  - do 3 (rewrite lookup_insert_ne by done). apply lookup_insert_eq.
Qed.

(** Entries with distinct image names have distinct keys. *)
Lemma NoDup_keys_of_names (entries : list item) :
  Forall well_keyed entries →
  NoDup (image_names entries) →
  NoDup (item_key (created_table []) <$> entries).
Proof.
  intros Hk Hnd. apply (NoDup_fmap_1 (λ k : item, k !! "image_name")).
  rewrite <- list_fmap_compose.
  replace ((λ k : item, k !! "image_name") ∘ item_key (created_table [])
             <$> entries) with (image_names entries); [done|].
  unfold image_names. apply Forall_fmap_ext_1.
  eapply Forall_impl; [exact Hk|]. intros e (n & t & Hn & Ht). simpl.
  rewrite (created_table_item_key [] e _ _ Hn Ht). unfold schema_key.
  by rewrite lookup_insert_eq.
Qed.

Lemma write_batch_created (t : string) (entries : list item)
    (w : world mem_store) :
  store w !! t = Some (created_table []) →
  Forall well_keyed entries →
  NoDup (item_key (created_table []) <$> entries) →
  write_batch entries {| table := Some t |} w
  = (Ok (), {| table := Some t |},
     set_store w (<[t := foldl put_one (created_table []) entries]> (store w))).
Proof.
  intros Htd Hk Hnd. unfold write_batch. cbn [table].
  rewrite (put_entries_ok t entries [] _ (created_table [])); try done.
  - unfold flush_amount. simpl. lia.
  - simpl. apply forallb_forall. intros it Hit.
    apply created_table_valid_item.
    by apply (proj1 (Forall_forall _ _) Hk), list_elem_of_In.
Qed.

(** X20. The script end to end, on a store without the table: when the
    files, in ASCII text, give at least two records with pairwise distinct
    image names,
    the script ends without error and without a log line, the table
    [facial-detection-dataset] holds exactly the records with their flag
    set (0 for the positions drawn as test part, 1 for the others), and
    [get_item] with the key of the schema returns each of them. *)
Theorem main_uploads_tagged (permutation : list nat)
    (files : list (list string)) (records : list (gmap string value))
    (w : world mem_store) :
  Forall (Forall is_ascii) files →
  build_records files = Ok records →
  permutation ≡ₚ seq 0 (length records) →
  NoDup (image_names records) →
  (2 ≤ length records)%nat →
  store w !! dt_name = None →
  ∃ w' td,
    main permutation files w = (Ok (), w')
    ∧ log w' = log w
    ∧ store w' = <[dt_name := td]> (store w)
    ∧ (∀ e, e ∈ td_items td ↔
            ∃ i d, records !! i = Some d
                   ∧ e = <["train_set" :=
                             VInt (uploaded_tag permutation (length records) i)]>
                           d)
    ∧ ∀ i d, records !! i = Some d →
        ∃ n, d !! "image_name" = Some (VStr n)
             ∧ (mem_get_item dt_name
                  (schema_key (VStr n)
                     (VInt (uploaded_tag permutation (length records) i)))
                  (store w')).1
               = Ok {| Item :=
                         Some (<["train_set" :=
                                   VInt (uploaded_tag permutation
                                           (length records) i)]> d) |}.
Proof.
  intros _ Hbuild Hp Hnd Hn Hnone.
  pose proof (build_records_built _ _ Hbuild) as Hbuilt.
  unfold main. rewrite Hbuild.
  rewrite (split_records_ok _ _ Hp (built_named _ Hbuilt) Hnd Hn).
  cbv beta iota zeta.
  set (nt := n_test_of (length records)).
  set (h := modify_all (take nt permutation) records).
  fold (contents h (drop nt permutation ++ take nt permutation)).
  set (x := contents h (drop nt permutation ++ take nt permutation)).
  assert (x ≡ₚ h) as Hx.
  { transitivity (contents h (seq 0 (length h)));
      [|by rewrite contents_seq].
    unfold x, contents. apply omap_Permutation. unfold h. rewrite modify_all_length, <- Hp.
    rewrite Permutation_app_comm. by rewrite take_drop. }
  assert (∀ e, e ∈ x ↔
            ∃ i d, records !! i = Some d
                   ∧ e = <["train_set" :=
                             VInt (uploaded_tag permutation (length records) i)]>
                           d) as Hmem.
  { intros e. rewrite Hx, list_elem_of_lookup. unfold h, uploaded_tag.
    fold nt. split.
    - intros [i Hi]. rewrite tagged_heap_lookup in Hi by done.
      destruct (records !! i) as [d|] eqn:Hd; [|done].
      exists i, d. split; [done|]. by simplify_eq/=.
    - intros (i & d & Hd & ->). exists i.
      rewrite tagged_heap_lookup by done. by rewrite Hd. }
  assert (Forall well_keyed x) as Hkeyed.
  { apply Forall_forall. intros e He. apply Hmem in He as (i & d & Hd & ->).
    apply well_keyed_tagged.
    exact (proj1 (Forall_lookup _ _) Hbuilt _ _ Hd). }
  assert (NoDup (item_key (created_table []) <$> x)) as Hkeys.
  { apply NoDup_keys_of_names; [done|]. unfold image_names.
    rewrite Hx. fold (image_names h). unfold h.
    by rewrite image_names_modify_all. }
  unfold run_scenario. rewrite exists_missing by done. cbn [negb].
  rewrite create_table_fresh by done. cbv beta iota.
  rewrite write_batch_created;
    [|cbn [store set_store]; apply lookup_insert_eq|done|done].
  cbn [store set_store].
  eexists _, (foldl put_one (created_table []) x).
  split_and!; [done|done|by rewrite insert_insert_eq| |].
  - intros e. rewrite <- Hmem.
    rewrite (foldl_put_one_items x (created_table []) e Hkeys).
    split; [intros [[Hin _]|Hin]; [by inversion Hin|done]|by right].
  - intros i d Hd.
    destruct (built_record d (proj1 (Forall_lookup _ _) Hbuilt _ _ Hd))
      as (name & n & faces & ->).
    exists name. split; [by unfold record_of; rewrite lookup_insert_eq|].
    cbn [store set_store]. rewrite insert_insert_eq.
    unfold mem_get_item. rewrite lookup_insert_eq.
    set (t := uploaded_tag permutation (length records) i).
    assert (valid_key (foldl put_one (created_table []) x)
              (schema_key (VStr name) (VInt t)) = true) as ->.
    { rewrite <- (created_table_valid_key [] name t).
      apply valid_key_schema; apply foldl_put_one_schema. }
    cbn [fst]. do 2 f_equal.
    assert (<["train_set" := VInt t]> (record_of name n faces 1) ∈ x) as Hin.
    { apply Hmem. by exists i, (record_of name n faces 1). }
    destruct (proj1 (Forall_forall _ _) Hkeyed _ Hin) as (n' & t' & Hn' & Ht').
    rewrite record_of_tag in *.
    assert (n' = name ∧ t' = t) as [-> ->].
    { unfold record_of in Hn', Ht'. rewrite lookup_insert_eq in Hn'.
      do 3 (rewrite lookup_insert_ne in Ht' by done).
      rewrite lookup_insert_eq in Ht'. by simplify_eq. }
    rewrite <- (created_table_item_key [] _ _ _ Hn' Ht').
    exact (stored_foldl_in x (created_table []) _ Hkeys Hin).
Qed.

Lemma main_uploads_tagged_witness :
  ∃ w' td,
    main [2; 0; 1]%nat sample_files empty_world = (Ok (), w')
    ∧ log w' = log empty_world
    ∧ store w' = <[dt_name := td]> (store empty_world)
    ∧ (∀ e, e ∈ td_items td ↔
            ∃ i d, (ann_record <$> concat sample_images) !! i = Some d
                   ∧ e = <["train_set" :=
                             VInt (uploaded_tag [2; 0; 1]%nat
                                     (length (ann_record <$>
                                                concat sample_images)) i)]>
                           d)
    ∧ ∀ i d, (ann_record <$> concat sample_images) !! i = Some d →
        ∃ n, d !! "image_name" = Some (VStr n)
             ∧ (mem_get_item dt_name
                  (schema_key (VStr n)
                     (VInt (uploaded_tag [2; 0; 1]%nat
                              (length (ann_record <$> concat sample_images))
                              i)))
                  (store w')).1
               = Ok {| Item :=
                         Some (<["train_set" :=
                                   VInt (uploaded_tag [2; 0; 1]%nat
                                           (length (ann_record <$>
                                                      concat sample_images))
                                           i)]> d) |}.
Proof.
  apply (main_uploads_tagged [2; 0; 1]%nat sample_files
           (ann_record <$> concat sample_images) empty_world).
  - apply (bool_decide_unpack _). vm_compute. reflexivity.
  - vm_refl.
  - by apply (bool_decide_unpack _).
  - apply (bool_decide_unpack _). vm_compute. reflexivity.
  - simpl. lia.
  - apply lookup_empty.
Defined.

(** ** Creating, filling and deleting a table *)

(** X22. Deleting undoes creating and writing: on a store without the
    table, [create_table], a [write_batch] of well-keyed entries with
    pairwise distinct keys and [delete_table] all succeed; the client is
    unbound again and the store and the log are as they were before, so
    that [exists] answers [False]. *)
Theorem create_write_delete_restores (table_name : string)
    (entries : list item) (w : world mem_store) :
  store w !! table_name = None →
  Forall well_keyed entries →
  NoDup (item_key (created_table []) <$> entries) →
  ∃ dt w1 w2,
    create_table table_name __init__ w = (Ok table_name, dt, w1)
    ∧ write_batch entries dt w1 = (Ok (), dt, w2)
    ∧ delete_table dt w2 = (Ok (), __init__, w)
    ∧ exists_ table_name __init__ w = (Ok false, __init__, w).
Proof.
  intros Hnone Hkeyed Hnd.
  eexists _, _, _. split_and!.
  - by apply create_table_fresh.
  - apply write_batch_created; [|done|done].
    cbn [store set_store]. apply lookup_insert_eq.
  - unfold delete_table, table_delete. cbn [table mem_resource store set_store].
    unfold mem_delete. rewrite lookup_insert_eq, insert_insert_eq.
    rewrite delete_insert_id by done.
    unfold set_store. cbn [log]. by rewrite world_eta.
  - by apply exists_missing.
Qed.

Lemma create_write_delete_restores_witness :
  ∃ dt w1 w2,
    create_table "facial-detection-dataset" __init__ empty_world
    = (Ok "facial-detection-dataset", dt, w1)
    ∧ write_batch [sample_entry] dt w1 = (Ok (), dt, w2)
    ∧ delete_table dt w2 = (Ok (), __init__, empty_world)
    ∧ exists_ "facial-detection-dataset" __init__ empty_world
      = (Ok false, __init__, empty_world).
Proof.
  apply (create_write_delete_restores "facial-detection-dataset"
           [sample_entry] empty_world).
  - apply lookup_empty.
  - repeat constructor. by exists "2002/08/11/big/img_591", 1.
  - apply (bool_decide_unpack _). vm_compute. reflexivity.
Defined.
